(** * Floating concat protocol (libavformat/floatconcat.c)

    A shallow embedding of the [flccat:] URL protocol: pattern parsing of
    the seed path, segment navigation ([progress]), the read loop and the
    seek translation, over an abstract single-resource accessor
    (the [ffurl_*] interface and [access]). *)

From Stdlib Require Import ZArith List String Ascii Bool Lia.
Import ListNotations.

Local Open Scope string_scope.
Local Open Scope Z_scope.

(** ** Machine integers

    [int] is 32 bits, [long] and [int64_t] are 64 bits (LP64).  Conversions
    to a narrower signed type and signed arithmetic are written with their
    two's-complement wrap-around. *)

Definition wrap (bits : Z) (x : Z) : Z :=
  (x + 2 ^ (bits - 1)) mod 2 ^ bits - 2 ^ (bits - 1).

Definition to_int (x : Z) : Z := wrap 32 x.
Definition to_int64 (x : Z) : Z := wrap 64 x.

Definition INT_MAX : Z := 2147483647.
Definition INT_MIN : Z := -2147483648.
Definition LONG_MAX : Z := 9223372036854775807.
Definition LONG_MIN : Z := -9223372036854775808.

Definition in_int (x : Z) : Prop := INT_MIN <= x <= INT_MAX.
Definition in_int64 (x : Z) : Prop := LONG_MIN <= x <= LONG_MAX.

Definition add32 (a b : Z) : Z := to_int (a + b).
Definition sub32 (a b : Z) : Z := to_int (a - b).
Definition add64 (a b : Z) : Z := to_int64 (a + b).
Definition sub64 (a b : Z) : Z := to_int64 (a - b).

(** ** Constants of the C environment (Linux errno values) *)

Definition ENOENT : Z := 2.
Definition EIO : Z := 5.
Definition EINVAL : Z := 22.
Definition ENOSYS : Z := 38.
Definition AVERROR (e : Z) : Z := - e.

Definition SEEK_SET : Z := 0.
Definition SEEK_CUR : Z := 1.
Definition SEEK_END : Z := 2.

Definition FILENAME_FMT_MAX_LENGTH : nat := 1024.

(** ** Outcomes

    [OutOfFuel] is the model's bound on loop iterations; [Undefined] is
    behaviour the C standard leaves undefined (a call through a released or
    null context, a format directive without argument, a write past the
    end of [filename_fmt], a failed [assert]). *)

Inductive outcome (A : Type) : Type :=
| Done (a : A)
| OutOfFuel
| Undefined.

Arguments Done {A} a.
Arguments OutOfFuel {A}.
Arguments Undefined {A}.

Definition bind {A B : Type} (m : outcome A) (k : A -> outcome B) : outcome B :=
  match m with
  | Done a => k a
  | OutOfFuel => OutOfFuel
  | Undefined => Undefined
  end.

Declare Scope outcome_scope.
Delimit Scope outcome_scope with outcome.

Notation "x <- m ;; k" := (bind m (fun x => k))
  (at level 61, m at next level, right associativity) : outcome_scope.
Notation "' p <- m ;; k" := (bind m (fun x => match x with p => k end))
  (at level 61, p pattern, m at next level, right associativity) : outcome_scope.

Local Open Scope outcome_scope.

Definition of_option {A : Type} (o : option A) : outcome A :=
  match o with
  | Some a => Done a
  | None => Undefined
  end.

(** ** C strings and the libc functions the protocol uses *)

Definition char_code (c : ascii) : Z := Z.of_nat (nat_of_ascii c).

Definition isdigit (c : ascii) : bool :=
  (48 <=? char_code c) && (char_code c <=? 57).

Definition isspace (c : ascii) : bool :=
  ((9 <=? char_code c) && (char_code c <=? 13)) || (char_code c =? 32).

Definition digit_val (c : ascii) : Z := char_code c - 48.

Definition digit_char (d : Z) : ascii := ascii_of_nat (Z.to_nat (d + 48)).

(** [*(s + i)]: the character at index [i], the terminating NUL past the
    end. *)
Definition char_at (s : string) (i : nat) : ascii :=
  match String.get i s with
  | Some c => c
  | None => zero
  end.

(** [s + n] *)
Fixpoint str_drop (n : nat) (s : string) : string :=
  match n, s with
  | O, _ => s
  | S m, String _ r => str_drop m r
  | S _, EmptyString => EmptyString
  end.

(** the first [n] characters of [s] *)
Fixpoint str_take (n : nat) (s : string) : string :=
  match n, s with
  | O, _ => EmptyString
  | S m, String c r => String c (str_take m r)
  | S _, EmptyString => EmptyString
  end.

(** [av_strstart(str, pfx, &ptr)]: when [str] starts with [pfx], [ptr] is
    set to the rest; otherwise [ptr] is left alone. *)
Fixpoint av_strstart (str pfx : string) : option string :=
  match pfx, str with
  | EmptyString, _ => Some str
  | String p pfx', String c str' =>
      if Ascii.eqb p c then av_strstart str' pfx' else None
  | String _ _, EmptyString => None
  end.

(** [strnlen(s, maxlen)] *)
Definition strnlen (s : string) (maxlen : nat) : nat :=
  Nat.min (String.length s) maxlen.

(** [av_strlcpy(dst, src, size)] stores at most [size - 1] characters of
    [src] and a NUL; this is the string stored at [dst]. *)
Definition av_strlcpy (src : string) (size : nat) : string :=
  str_take (size - 1) src.

(** The digits read by [strtol] in base 10, accumulated without bound. *)
Fixpoint strtol_digits (s : string) (acc : Z) : Z :=
  match s with
  | String c r =>
      if isdigit c then strtol_digits r (10 * acc + digit_val c) else acc
  | EmptyString => acc
  end.

Fixpoint skip_space (s : string) : string :=
  match s with
  | String c r => if isspace c then skip_space r else s
  | EmptyString => s
  end.

(** [strtol(s, NULL, 10)]: leading white space, an optional sign, the
    digits; the value saturates at [LONG_MIN] and [LONG_MAX]. *)
Definition strtol (s : string) : Z :=
  match skip_space s with
  | String c r =>
      if Ascii.eqb c "-" then Z.max LONG_MIN (- strtol_digits r 0)
      else if Ascii.eqb c "+" then Z.min LONG_MAX (strtol_digits r 0)
      else Z.min LONG_MAX (strtol_digits (String c r) 0)
  | EmptyString => 0
  end.

(** Decimal digits of a non-negative number, most significant first.  An
    [int] has at most 10 digits. *)
Fixpoint dec_digits (fuel : nat) (n : Z) (acc : string) : string :=
  match fuel with
  | O => acc
  | S f =>
      let acc' := String (digit_char (n mod 10)) acc in
      if n / 10 =? 0 then acc' else dec_digits f (n / 10) acc'
  end.

(** What [%d] prints for an [int]. *)
Definition print_int (n : Z) : string :=
  if n <? 0 then String "-"%char (dec_digits 10 (- n) EmptyString)
  else dec_digits 10 n EmptyString.

(** The output of [printf]-style formatting of [fmt] with the one [int]
    argument [arg] ([args] is [Some arg] until a [%d] has consumed it).
    [%%] prints a percent sign.  A second [%d], any other conversion and
    a lone [%] have no defined behaviour here. *)
Fixpoint format_int (fmt : string) (args : option Z) : option string :=
  match fmt with
  | EmptyString => Some EmptyString
  | String c rest =>
      if Ascii.eqb c "%" then
        match rest with
        | String d rest' =>
            if Ascii.eqb d "d" then
              match args with
              | Some n => option_map (append (print_int n)) (format_int rest' None)
              | None => None
              end
            else if Ascii.eqb d "%" then
              option_map (String "%"%char) (format_int rest' args)
            else None
        | EmptyString => None
        end
      else option_map (String c) (format_int rest args)
  end.

(** [snprintf(buf, size, fmt, arg)]: the string stored in [buf], at most
    [size - 1] characters. *)
Definition snprintf (size : nat) (fmt : string) (arg : Z) : option string :=
  match format_int fmt (Some arg) with
  | Some out => Some (str_take (size - 1) out)
  | None => None
  end.

(** [filename_from_idx] *)
Definition filename_from_idx (filename_fmt : string) (idx : Z) : option string :=
  snprintf FILENAME_FMT_MAX_LENGTH filename_fmt idx.

(** ** The scans of the pattern parser

    [c_iter] is kept as its index [c_iter - uri]. *)

(** [while (!isdigit( *c_iter) && c_iter > uri) --c_iter;] *)
Fixpoint back_over_nondigits (uri : string) (c_iter : nat) : nat :=
  match c_iter with
  | O => O
  | S p =>
      if isdigit (char_at uri c_iter) then c_iter
      else back_over_nondigits uri p
  end.

(** [while (isdigit( *c_iter) && c_iter > uri) --c_iter;] *)
Fixpoint back_over_digits (uri : string) (c_iter : nat) : nat :=
  match c_iter with
  | O => O
  | S p =>
      if isdigit (char_at uri c_iter) then back_over_digits uri p
      else c_iter
  end.

(** What lines 124-148 of [flccat_open] make of the path [uri] (the seed
    without its scheme): [data->idx], and [filename_fmt] when a digit run
    was found.  The three [av_strlcpy] calls store the prefix at
    [filename_fmt], the two characters of the placeholder at
    [filename_fmt + num_begin] and the suffix at
    [filename_fmt + num_begin + 2]; the last one stores its NUL at index
    [num_begin + 2 + (uri_len - num_end)], which is past the end of the
    array when it reaches [FILENAME_FMT_MAX_LENGTH]. *)
Inductive parsed : Type :=
| NoDigitRun (idx : Z)
| Overrun
| Pattern (idx : Z) (fmt : string).

Definition pattern_of_uri (uri : string) : parsed :=
  let uri_len := strnlen uri (FILENAME_FMT_MAX_LENGTH - 1) in
  let c_iter := (uri_len - 1)%nat in
  let c_iter := back_over_nondigits uri c_iter in
  let num_end := (c_iter + 1)%nat in
  let c_iter := back_over_digits uri c_iter in
  let num_begin := (c_iter + 1)%nat in
  let idx := to_int (strtol (str_drop (c_iter + 1) uri)) in
  if negb (num_begin =? num_end)%nat then
    if (FILENAME_FMT_MAX_LENGTH <=? num_begin + 2 + (uri_len - num_end))%nat
    then Overrun
    else
      Pattern idx
        (av_strlcpy uri (num_begin + 1)
         ++ av_strlcpy "%d" (2 + 1)
         ++ av_strlcpy (str_drop num_end uri) (uri_len - num_end + 1))
  else NoDigitRun idx.

(** ** What the pattern parser is measured against *)

(** Every character of [s] satisfies [p]. *)
Fixpoint str_all (p : ascii -> bool) (s : string) : bool :=
  match s with
  | EmptyString => true
  | String c r => p c && str_all p r
  end.

(** [s] is not empty and its last character is not a digit. *)
Fixpoint ends_nondigit (s : string) : bool :=
  match s with
  | EmptyString => false
  | String c EmptyString => negb (isdigit c)
  | String _ r => ends_nondigit r
  end.

Definition is_percent (c : ascii) : bool := Ascii.eqb c "%".

Definition plain (c : ascii) : bool := negb (is_percent c).

Definition plain_nondigit (c : ascii) : bool := negb (isdigit c) && negb (is_percent c).

(** The value of the last run of decimal digits of [s], read from the
    left: [run] is the value of the run being read, [last] that of the
    last run that has ended. *)
Fixpoint last_digit_run (s : string) (run last : option Z) : option Z :=
  match s with
  | EmptyString =>
      match run with
      | Some v => Some v
      | None => last
      end
  | String c r =>
      if isdigit c then
        last_digit_run r
          (Some (10 * (match run with Some v => v | None => 0 end) + digit_val c))
          last
      else
        last_digit_run r None
          (match run with Some v => Some v | None => last end)
  end.

Definition trailing_number (s : string) : option Z := last_digit_run s None None.

(** [n] copies of the character [c]. *)
Fixpoint str_repeat (c : ascii) (n : nat) : string :=
  match n with
  | O => EmptyString
  | S m => String c (str_repeat c m)
  end.

Definition nondigit (c : ascii) : bool := negb (isdigit c).

(** ** The single-resource accessor

    The [ffurl_*] functions of libavformat and [access] are not part of
    the protocol; they are taken as an interface over a [world].  A
    [context] stands for a [URLContext *] that is not null.
    [acc_live] tells whether a context is allocated and not yet closed
    ([ffurl_close] frees the context it is given), [acc_flags] is the
    [flags] field the world records for a context. *)

Class Accessor : Type := {
  world : Type;
  context : Type;
  (** [access(filename, R_OK) == 0] *)
  acc_access : string -> world -> bool * world;
  (** [ffurl_open(&uc, filename, flags, ...)]: the result and the pointer
      stored in [uc] *)
  acc_open : string -> Z -> world -> Z * option context * world;
  (** [ffurl_size(uc)] *)
  acc_size : context -> world -> Z * world;
  (** [ffurl_read(uc, buf, size)]: the result and the bytes stored *)
  acc_read : context -> Z -> world -> Z * list Z * world;
  (** [ffurl_seek(uc, pos, whence)] *)
  acc_seek : context -> Z -> Z -> world -> Z * world;
  (** [ffurl_close(uc)] on a context that is not null *)
  acc_close : context -> world -> Z * world;
  acc_flags : context -> world -> Z;
  acc_live : context -> world -> bool
}.

Section Protocol.

Context {A : Accessor}.

(** A call through a pointer: undefined on a null pointer and on a context
    that has been released. *)
Definition through {R : Type} (uc : option context) (w : world)
  (call : context -> world -> R) : outcome R :=
  match uc with
  | Some c => if acc_live c w then Done (call c w) else Undefined
  | None => Undefined
  end.

Definition ffurl_size (uc : option context) (w : world) : outcome (Z * world) :=
  through uc w acc_size.

Definition ffurl_read (uc : option context) (size : Z) (w : world)
  : outcome (Z * list Z * world) :=
  through uc w (fun c => acc_read c size).

Definition ffurl_seek (uc : option context) (pos whence : Z) (w : world)
  : outcome (Z * world) :=
  through uc w (fun c => acc_seek c pos whence).

(** [ffurl_close] returns 0 on a null pointer. *)
Definition ffurl_close (uc : option context) (w : world) : outcome (Z * world) :=
  match uc with
  | Some c => if acc_live c w then Done (acc_close c w) else Undefined
  | None => Done (0, w)
  end.

(** ** The protocol's data *)

Record flccat_nodes : Type := {
  uc : option context;
  size : Z
}.

Record flccat_data : Type := {
  current : flccat_nodes;
  idx : Z;
  filename_fmt : string;
  segment_start : Z
}.

Definition set_current (data : flccat_data) (n : flccat_nodes) : flccat_data :=
  {| current := n; idx := idx data; filename_fmt := filename_fmt data;
     segment_start := segment_start data |}.

Definition set_uc (data : flccat_data) (u : option context) : flccat_data :=
  set_current data {| uc := u; size := size (current data) |}.

Definition set_idx (data : flccat_data) (i : Z) : flccat_data :=
  {| current := current data; idx := i; filename_fmt := filename_fmt data;
     segment_start := segment_start data |}.

Definition set_filename_fmt (data : flccat_data) (f : string) : flccat_data :=
  {| current := current data; idx := idx data; filename_fmt := f;
     segment_start := segment_start data |}.

Definition set_segment_start (data : flccat_data) (s : Z) : flccat_data :=
  {| current := current data; idx := idx data; filename_fmt := filename_fmt data;
     segment_start := s |}.

(** ** Opening and closing one segment *)

Definition file_exist_filename (filename : string) (w : world) : bool * world :=
  acc_access filename w.

Definition update_current_size (cur : flccat_nodes) (w : world)
  : outcome (Z * flccat_nodes * world) :=
  '(result, w1) <- ffurl_size (uc cur) w ;;
  if result <? 0 then Done (result, cur, w1)
  else Done (result, {| uc := uc cur; size := result |}, w1).

(** [ffurl_open] stores its pointer in [data->current.uc], also when it
    fails. *)
Definition open_filename (filename : string) (flags : Z)
  (data : flccat_data) (w : world) : outcome (Z * flccat_data * world) :=
  let '(err, puc, w1) := acc_open filename flags w in
  let data1 := set_uc data puc in
  if err <? 0 then Done (err, data1, w1)
  else
    '(r, cur, w2) <- update_current_size (current data1) w1 ;;
    let data2 := set_current data1 cur in
    if r <? 0 then
      '(_, w3) <- ffurl_close (uc (current data2)) w2 ;;
      Done (AVERROR ENOSYS, data2, w3)
    else Done (0, data2, w2).

Definition open_idx (flags : Z) (data : flccat_data) (w : world)
  : outcome (Z * flccat_data * world) :=
  filename <- of_option (filename_from_idx (filename_fmt data) (idx data)) ;;
  open_filename filename flags data w.

Definition close_current (data : flccat_data) (w : world) : outcome (Z * world) :=
  ffurl_close (uc (current data)) w.

Definition flccat_close (data : flccat_data) (w : world) : outcome (Z * world) :=
  '(err, w1) <- ffurl_close (uc (current data)) w ;;
  Done ((if err <? 0 then -1 else 0), w1).

(** ** [flccat_open]

    The fields of [data] are set first; [av_strstart] drops the scheme
    when it is there. *)

Definition flccat_open (uri : string) (flags : Z) (w : world)
  : outcome (Z * flccat_data * world) :=
  let data := {| current := {| uc := None; size := 0 |}; idx := 0;
                 filename_fmt := EmptyString; segment_start := 0 |} in
  let uri := match av_strstart uri "flccat:" with
             | Some rest => rest
             | None => uri
             end in
  if String.eqb uri EmptyString then Done (AVERROR ENOENT, data, w)
  else
    match pattern_of_uri uri with
    | Pattern i fmt =>
        let data := set_filename_fmt (set_idx data i) fmt in
        '(err, data, w) <- open_idx flags data w ;;
        if err <? 0 then
          '(_, w) <- flccat_close data w ;;
          Done (err, data, w)
        else Done (err, data, w)
    | Overrun => Undefined
    | NoDigitRun i => Done (AVERROR ENOENT, set_idx data i, w)
    end.

(** ** The navigator *)

(** [data->current.uc->flags] *)
Definition current_flags (data : flccat_data) (w : world) : outcome Z :=
  match uc (current data) with
  | Some c => Done (acc_flags c w)
  | None => Undefined
  end.

(** [progress] reads the [flags] field of the current context after
    [close_current]: the model takes what the world records for the
    context there. *)
Definition progress (direction : Z) (data : flccat_data) (w : world)
  : outcome (Z * flccat_data * world) :=
  if negb ((direction =? 1) || (direction =? -1)) then Undefined
  else
    filename <- of_option (filename_from_idx (filename_fmt data)
                             (add32 (idx data) direction)) ;;
    let '(found, w) := file_exist_filename filename w in
    if found then
      '(size_first, w) <- ffurl_size (uc (current data)) w ;;
      '(err, w) <- close_current data w ;;
      if err <? 0 then Done (err, data, w)
      else
        flags <- current_flags data w ;;
        '(err, data, w) <- open_filename filename flags data w ;;
        if err <? 0 then Done (err, data, w)
        else
          let data := set_idx data (add32 (idx data) direction) in
          let data :=
            if direction >? 0
            then set_segment_start data (add64 (segment_start data) size_first)
            else set_segment_start data
                   (sub64 (segment_start data) (size (current data))) in
          '(err, w) <- ffurl_seek (uc (current data)) 0 SEEK_SET w ;;
          if err <? 0 then Done (err, data, w)
          else Done (1, data, w)
    else Done (0, data, w).

Definition go_forward (data : flccat_data) (w : world) := progress 1 data w.

Definition go_backward (data : flccat_data) (w : world) := progress (-1) data w.

Definition activate_current (data : flccat_data) (w : world) : outcome (Z * world) :=
  ffurl_seek (uc (current data)) 0 SEEK_SET w.

(** ** The stream reader

    [buf] collects the bytes stored in the caller's buffer.  One unit of
    fuel is one iteration of [while (size > 0)]. *)

Fixpoint read_loop (fuel : nat) (size total : Z) (buf : list Z)
  (data : flccat_data) (w : world)
  : outcome (Z * list Z * flccat_data * world) :=
  if size >? 0 then
    match fuel with
    | O => OutOfFuel
    | S fuel' =>
        '(result, bytes, w) <- ffurl_read (uc (current data)) size w ;;
        if result <? 0 then
          Done ((if total =? 0 then result else total), buf, data, w)
        else
          let buf := (buf ++ bytes)%list in
          if (result =? 0) || (result <? size) then
            '(p, data, w) <- go_forward data w ;;
            let err := to_int p in
            if err <? 0 then Done (err, buf, data, w)
            else
              '(a, w) <- activate_current data w ;;
              let err := to_int a in
              if err <? 0 then Done (err, buf, data, w)
              else read_loop fuel' (sub32 size result) (add32 total result)
                     buf data w
          else read_loop fuel' (sub32 size result) (add32 total result)
                 buf data w
    end
  else Done (total, buf, data, w).

Definition flccat_read (fuel : nat) (size : Z) (data : flccat_data) (w : world)
  : outcome (Z * list Z * flccat_data * world) :=
  read_loop fuel size 0 [] data w.

(** ** The seek translator *)

(** How a [while] loop of [seek_relative] is left: by a [return], or by
    its condition with the current value of [pos]. *)
Inductive loop_exit : Type :=
| Return (r : Z)
| Fallthrough (pos : Z).

(** [while (offset + pos < 0)] *)
Fixpoint seek_backward (fuel : nat) (offset pos : Z)
  (data : flccat_data) (w : world)
  : outcome (loop_exit * flccat_data * world) :=
  if add64 offset pos <? 0 then
    match fuel with
    | O => OutOfFuel
    | S fuel' =>
        '(p, data, w) <- go_backward data w ;;
        if p =? 0 then
          '(offset, w) <- ffurl_seek (uc (current data)) 0 SEEK_SET w ;;
          if offset <? 0 then Done (Return offset, data, w)
          else Done (Return (add64 (segment_start data) offset), data, w)
        else if p =? 1 then
          seek_backward fuel' offset (add64 pos (size (current data))) data w
        else Done (Return p, data, w)
    end
  else Done (Fallthrough pos, data, w).

(** [while (offset + pos > data->current.size)]; the local [size] is an
    [int]. *)
Fixpoint seek_forward (fuel : nat) (offset pos : Z)
  (data : flccat_data) (w : world)
  : outcome (loop_exit * flccat_data * world) :=
  if add64 offset pos >? size (current data) then
    match fuel with
    | O => OutOfFuel
    | S fuel' =>
        let size := to_int (size (current data)) in
        '(p, data, w) <- go_forward data w ;;
        if p =? 0 then
          '(_, cur, w) <- update_current_size (current data) w ;;
          let data := set_current data cur in
          '(offset, w) <- ffurl_seek (uc (current data)) (-1) SEEK_END w ;;
          if offset <? 0 then Done (Return offset, data, w)
          else Done (Return (add64 (segment_start data) offset), data, w)
        else if p =? 1 then
          seek_forward fuel' offset (sub64 pos size) data w
        else Done (Return p, data, w)
    end
  else Done (Fallthrough pos, data, w).

Definition seek_relative (fuel : nat) (pos : Z) (data : flccat_data) (w : world)
  : outcome (Z * flccat_data * world) :=
  '(offset, w) <- ffurl_seek (uc (current data)) 0 SEEK_CUR w ;;
  '(e, data, w) <- seek_backward fuel offset pos data w ;;
  match e with
  | Return r => Done (r, data, w)
  | Fallthrough pos =>
      '(e, data, w) <- seek_forward fuel offset pos data w ;;
      match e with
      | Return r => Done (r, data, w)
      | Fallthrough pos =>
          '(offset, w) <- ffurl_seek (uc (current data)) (add64 offset pos)
                            SEEK_SET w ;;
          if offset <? 0 then Done (offset, data, w)
          else Done (add64 (segment_start data) offset, data, w)
      end
  end.

(** [do { progress = go_forward(h); } while (progress > 0);] *)
Fixpoint drain_forward (fuel : nat) (data : flccat_data) (w : world)
  : outcome (Z * flccat_data * world) :=
  match fuel with
  | O => OutOfFuel
  | S fuel' =>
      '(p, data, w) <- go_forward data w ;;
      if p >? 0 then drain_forward fuel' data w
      else Done (p, data, w)
  end.

Definition flccat_seek (fuel : nat) (pos whence : Z)
  (data : flccat_data) (w : world) : outcome (Z * flccat_data * world) :=
  if whence =? SEEK_END then
    '(p, data, w) <- drain_forward fuel data w ;;
    if p <? 0 then Done (p, data, w)
    else
      '(p, w) <- activate_current data w ;;
      if p <? 0 then Done (p, data, w)
      else seek_relative fuel (add64 (size (current data)) pos) data w
  else if whence =? SEEK_CUR then seek_relative fuel pos data w
  else if whence =? SEEK_SET then
    '(offset, w) <- ffurl_seek (uc (current data)) 0 SEEK_CUR w ;;
    let current_pos := add64 (segment_start data) offset in
    seek_relative fuel (sub64 pos current_pos) data w
  else Done (AVERROR EINVAL, data, w).

(** [drains data w n p data' w']: from [data] and [w], [n] calls of
    [go_forward] return a positive value and the next one returns [p],
    which is not positive, leaving [data'] and [w']. *)
Inductive drains : flccat_data -> world -> nat -> Z -> flccat_data -> world -> Prop :=
| drains_stop data w p data' w' :
    go_forward data w = Done (p, data', w') -> p <= 0 ->
    drains data w O p data' w'
| drains_step data w p data1 w1 n r data' w' :
    go_forward data w = Done (p, data1, w1) -> 0 < p ->
    drains data1 w1 n r data' w' ->
    drains data w (S n) r data' w'.

End Protocol.

(** ** A file-backed accessor

    Modelled from the spec: the Segment Accessor of section 4.2 (open,
    read, seek, size, close and the readability probe), whose code is
    libavformat's and the C library's.  A world of named files, a table of
    contexts, and a script of what the environment does: before each
    accessor call the next event of the script happens (another process
    removes or rewrites a file, or the call itself fails with [EIO]).  A
    file is its size and its bytes; a read at the end of a file returns
    0. *)

Module FileWorld.

Record file : Type := {
  f_size : Z;
  f_byte : Z -> Z
}.

Inductive event : Type :=
| EvIdle
| EvFail
| EvRemove (name : string)
| EvPut (name : string) (f : file).

Record fctx : Type := {
  fc_name : string;
  fc_pos : Z;
  fc_flags : Z;
  fc_live : bool
}.

Record fsworld : Type := {
  files : list (string * file);
  ctxs : list fctx;
  env : list event
}.

Fixpoint find_file (name : string) (l : list (string * file)) : option file :=
  match l with
  | [] => None
  | (n, f) :: rest => if String.eqb n name then Some f else find_file name rest
  end.

Fixpoint remove_file (name : string) (l : list (string * file))
  : list (string * file) :=
  match l with
  | [] => []
  | (n, f) :: rest =>
      if String.eqb n name then remove_file name rest
      else (n, f) :: remove_file name rest
  end.

Fixpoint set_ctx (i : nat) (c : fctx) (l : list fctx) : list fctx :=
  match l, i with
  | [], _ => []
  | _ :: rest, O => c :: rest
  | x :: rest, S j => x :: set_ctx j c rest
  end.

(** The next event of the script; [true] when the call is to fail. *)
Definition tick (w : fsworld) : bool * fsworld :=
  match env w with
  | [] => (false, w)
  | e :: rest =>
      match e with
      | EvIdle => (false, {| files := files w; ctxs := ctxs w; env := rest |})
      | EvFail => (true, {| files := files w; ctxs := ctxs w; env := rest |})
      | EvRemove n =>
          (false, {| files := remove_file n (files w); ctxs := ctxs w;
                     env := rest |})
      | EvPut n f =>
          (false, {| files := (n, f) :: remove_file n (files w);
                     ctxs := ctxs w; env := rest |})
      end
  end.

Definition with_ctx (w : fsworld) (i : nat) (c : fctx) : fsworld :=
  {| files := files w; ctxs := set_ctx i c (ctxs w); env := env w |}.

Definition fw_access (name : string) (w : fsworld) : bool * fsworld :=
  let '(fail, w) := tick w in
  if fail then (false, w)
  else
    match find_file name (files w) with
    | Some _ => (true, w)
    | None => (false, w)
    end.

Definition fw_open (name : string) (flags : Z) (w : fsworld)
  : Z * option nat * fsworld :=
  let '(fail, w) := tick w in
  if fail then (AVERROR EIO, None, w)
  else
    match find_file name (files w) with
    | Some _ =>
        (0, Some (List.length (ctxs w)),
         {| files := files w;
            ctxs := (ctxs w ++ [{| fc_name := name; fc_pos := 0;
                                   fc_flags := flags; fc_live := true |}])%list;
            env := env w |})
    | None => (AVERROR ENOENT, None, w)
    end.

Definition fw_size (c : nat) (w : fsworld) : Z * fsworld :=
  let '(fail, w) := tick w in
  if fail then (AVERROR EIO, w)
  else
    match nth_error (ctxs w) c with
    | Some x =>
        match find_file (fc_name x) (files w) with
        | Some f => (f_size f, w)
        | None => (AVERROR EIO, w)
        end
    | None => (AVERROR EINVAL, w)
    end.

(** The bytes of [f] at positions [pos], ..., [pos + n - 1]. *)
Fixpoint bytes_from (f : file) (pos : Z) (n : nat) : list Z :=
  match n with
  | O => []
  | S m => f_byte f pos :: bytes_from f (pos + 1) m
  end.

Definition fw_read (c : nat) (size : Z) (w : fsworld) : Z * list Z * fsworld :=
  let '(fail, w) := tick w in
  if fail then (AVERROR EIO, [], w)
  else
    match nth_error (ctxs w) c with
    | Some x =>
        match find_file (fc_name x) (files w) with
        | Some f =>
            let n := Z.max 0 (Z.min size (f_size f - fc_pos x)) in
            (n, bytes_from f (fc_pos x) (Z.to_nat n),
             with_ctx w c {| fc_name := fc_name x; fc_pos := fc_pos x + n;
                             fc_flags := fc_flags x; fc_live := fc_live x |})
        | None => (AVERROR EIO, [], w)
        end
    | None => (AVERROR EINVAL, [], w)
    end.

Definition fw_seek (c : nat) (pos whence : Z) (w : fsworld) : Z * fsworld :=
  let '(fail, w) := tick w in
  if fail then (AVERROR EIO, w)
  else
    match nth_error (ctxs w) c with
    | Some x =>
        match find_file (fc_name x) (files w) with
        | Some f =>
            let base :=
              if whence =? SEEK_SET then Some 0
              else if whence =? SEEK_CUR then Some (fc_pos x)
              else if whence =? SEEK_END then Some (f_size f)
              else None in
            match base with
            | Some b =>
                if b + pos <? 0 then (AVERROR EINVAL, w)
                else
                  (b + pos,
                   with_ctx w c {| fc_name := fc_name x; fc_pos := b + pos;
                                   fc_flags := fc_flags x;
                                   fc_live := fc_live x |})
            | None => (AVERROR EINVAL, w)
            end
        | None => (AVERROR EIO, w)
        end
    | None => (AVERROR EINVAL, w)
    end.

(** The context is released whatever the result of the close. *)
Definition fw_close (c : nat) (w : fsworld) : Z * fsworld :=
  let '(fail, w) := tick w in
  let w' :=
    match nth_error (ctxs w) c with
    | Some x =>
        with_ctx w c {| fc_name := fc_name x; fc_pos := fc_pos x;
                        fc_flags := fc_flags x; fc_live := false |}
    | None => w
    end in
  ((if fail then AVERROR EIO else 0), w').

Definition fw_flags (c : nat) (w : fsworld) : Z :=
  match nth_error (ctxs w) c with
  | Some x => fc_flags x
  | None => 0
  end.

Definition fw_live (c : nat) (w : fsworld) : bool :=
  match nth_error (ctxs w) c with
  | Some x => fc_live x
  | None => false
  end.

(** Modelled from the spec: the Segment Accessor over named files. *)
#[export] Instance file_accessor : Accessor := {|
  world := fsworld;
  context := nat;
  acc_access := fw_access;
  acc_open := fw_open;
  acc_size := fw_size;
  acc_read := fw_read;
  acc_seek := fw_seek;
  acc_close := fw_close;
  acc_flags := fw_flags;
  acc_live := fw_live
|}.

(** The context [ffurl_open] makes, and the world with one more context. *)
Definition just_opened (n : string) (flags : Z) : fctx :=
  {| fc_name := n; fc_pos := 0; fc_flags := flags; fc_live := true |}.

Definition with_new_ctx (w : fsworld) (x : fctx) : fsworld :=
  {| files := files w; ctxs := (ctxs w ++ [x])%list; env := env w |}.

(** A file of [n] bytes [0, 1, 2, ...]. *)
Definition counting (n : Z) : file := {| f_size := n; f_byte := fun i => i mod 256 |}.

(** A quiet world: these files, no context, nothing scripted. *)
Definition quiet (l : list (string * file)) : fsworld :=
  {| files := l; ctxs := []; env := [] |}.

(** The contexts that are live. *)
Definition live_contexts (w : fsworld) : list nat :=
  filter (fun c => fw_live c w) (seq 0 (List.length (ctxs w))).

End FileWorld.

(** ** Virtual offsets over the file-backed accessor

    The ground truth the navigator's bookkeeping is compared with: the
    offset of segment [i] is the sum of the sizes of the files between the
    seed and [i], counted negative below the seed. *)

Module Offsets.
Import FileWorld.




(** The position of the current context in its file. *)
Definition local_offset (data : flccat_data) (w : fsworld) : Z :=
  match uc (current data) with
  | Some c =>
      match nth_error (ctxs w) c with
      | Some x => fc_pos x
      | None => 0
      end
  | None => 0
  end.



End Offsets.

(** ** Streams and worlds used as examples *)

Module Scenarios.
Import FileWorld.

(** A context just opened on [name]. *)
Definition fresh (name : string) : fctx :=
  {| fc_name := name; fc_pos := 0; fc_flags := 0; fc_live := true |}.

Definition released (name : string) (pos : Z) : fctx :=
  {| fc_name := name; fc_pos := pos; fc_flags := 0; fc_live := false |}.

(** The stream right after [flccat_open] on segment [i] of size [sz] of
    the pattern [seg%d]. *)
Definition opened (i sz : Z) : flccat_data :=
  {| current := {| uc := Some O; size := sz |}; idx := i;
     filename_fmt := "seg%d"; segment_start := 0 |}.

(** The stream after one transition into segment [i] of size [sz]. *)
Definition moved (i sz start : Z) : flccat_data :=
  {| current := {| uc := Some 1%nat; size := sz |}; idx := i;
     filename_fmt := "seg%d"; segment_start := start |}.

(** Segment 2 is open; segment 1 is there when probed and removed before
    it is opened. *)
Definition vanishing : fsworld :=
  {| files := [("seg1", counting 4); ("seg2", counting 3)];
     ctxs := [fresh "seg2"];
     env := [EvIdle; EvIdle; EvIdle; EvRemove "seg1"] |}.

Definition vanished : fsworld :=
  {| files := [("seg2", counting 3)];
     ctxs := [released "seg2" 0];
     env := [] |}.

(** Segments 1 and 2, the given one open. *)
Definition two_segments (name : string) : fsworld :=
  {| files := [("seg1", counting 4); ("seg2", counting 3)];
     ctxs := [fresh name];
     env := [] |}.

Definition two_segments_moved (from to : string) (pos : Z) : fsworld :=
  {| files := [("seg1", counting 4); ("seg2", counting 3)];
     ctxs := [released from 0;
              {| fc_name := to; fc_pos := pos; fc_flags := 0; fc_live := true |}];
     env := [] |}.

(** The seed is segment 1; segment 0 is empty. *)
Definition empty_predecessor : fsworld :=
  {| files := [("seg0", counting 0); ("seg1", counting 4)];
     ctxs := [fresh "seg1"];
     env := [] |}.

(** Segment 1 has 2^31 bytes. *)
Definition huge_segment : fsworld :=
  {| files := [("seg1", counting 2147483648); ("seg2", counting 100)];
     ctxs := [fresh "seg1"];
     env := [] |}.

(** One segment of [n] bytes, and nothing after it. *)
Definition last_segment (n : Z) : fsworld :=
  {| files := [("seg1", counting n)]; ctxs := [fresh "seg1"]; env := [] |}.

(** The same with the context at position [pos]. *)
Definition last_segment_at (n pos : Z) : fsworld :=
  {| files := [("seg1", counting n)];
     ctxs := [{| fc_name := "seg1"; fc_pos := pos; fc_flags := 0;
                 fc_live := true |}];
     env := [] |}.

(** Three segments of two bytes; the accessor call number [n + 1] fails. *)
Definition three_segments (n : nat) : fsworld :=
  {| files := [("seg1", counting 2); ("seg2", counting 2); ("seg3", counting 2)];
     ctxs := [fresh "seg1"];
     env := (repeat EvIdle n ++ [EvFail])%list |}.

(** [three_segments 12] when the second pass of a read of 5 bytes
    begins, and when the read has returned. *)
Definition second_pass : fsworld :=
  {| files := [("seg1", counting 2); ("seg2", counting 2); ("seg3", counting 2)];
     ctxs := [released "seg1" 2; fresh "seg2"];
     env := [EvIdle; EvIdle; EvIdle; EvIdle; EvFail] |}.

Definition second_pass_end : fsworld :=
  {| files := [("seg1", counting 2); ("seg2", counting 2); ("seg3", counting 2)];
     ctxs := [released "seg1" 2; released "seg2" 2];
     env := [] |}.

(** [huge_segment] after the transition to segment 2. *)
Definition huge_segment_left : fsworld :=
  {| files := [("seg1", counting 2147483648); ("seg2", counting 100)];
     ctxs := [released "seg1" 0; fresh "seg2"];
     env := [] |}.

(** Segment 1 can be opened, and the size query that follows fails. *)
Definition size_unavailable : fsworld :=
  {| files := [("seg1", counting 2)]; ctxs := []; env := [EvIdle; EvFail] |}.

(** What is looked at in the result of a read: the value returned and the
    bytes stored in the buffer. *)
Definition read_result (o : outcome (Z * list Z * flccat_data * fsworld))
  : option (Z * list Z) :=
  match o with
  | Done (r, buf, _, _) => Some (r, buf)
  | _ => None
  end.

(** What is looked at in the result of a seek: the value returned, the
    index and the position of the current context. *)
Definition seek_result (o : outcome (Z * flccat_data * fsworld))
  : option (Z * Z * Z) :=
  match o with
  | Done (r, data, w) => Some (r, idx data, Offsets.local_offset data w)
  | _ => None
  end.

End Scenarios.

(** ** The contract of the accessor on the life of contexts

    Modelled from the spec: the handles of the Segment Accessor.  Only
    [ffurl_open] makes a context live and only [ffurl_close] releases
    one; a failed open leaves a null pointer, and a close releases the
    context whatever it returns. *)

Class AccessorLaws (A : Accessor) : Prop := {
  access_live : forall n w b w',
    acc_access n w = (b, w') -> forall c, acc_live c w' = acc_live c w;
  size_live : forall c0 w r w',
    acc_size c0 w = (r, w') -> forall c, acc_live c w' = acc_live c w;
  read_live : forall c0 n w r bs w',
    acc_read c0 n w = (r, bs, w') -> forall c, acc_live c w' = acc_live c w;
  seek_live : forall c0 p wh w r w',
    acc_seek c0 p wh w = (r, w') -> forall c, acc_live c w' = acc_live c w;
  close_live : forall c0 w r w',
    acc_close c0 w = (r, w') ->
    acc_live c0 w' = false /\
    forall c, acc_live c w' = true -> acc_live c w = true;
  open_fail_live : forall n f w e u w',
    acc_open n f w = (e, u, w') -> e < 0 ->
    u = None /\ forall c, acc_live c w' = acc_live c w;
  open_ok_live : forall n f w e u w',
    acc_open n f w = (e, u, w') -> 0 <= e ->
    exists c0, u = Some c0 /\ acc_live c0 w' = true /\
      forall c, acc_live c w' = true -> c = c0 \/ acc_live c w = true
}.

(** ** The contract of the accessor on what a read stores

    Modelled from the spec: [read(handle, buffer, maxLen)] of the Segment
    Accessor returns an error or the number of bytes it stored, at most
    [maxLen]. *)
Class ReadLaw (A : Accessor) : Prop := {
  read_stores : forall c n w r bs w',
    acc_read c n w = (r, bs, w') -> 0 < n ->
    r <= n /\ (0 <= r -> Z.of_nat (List.length bs) = r)
}.

(** ** The contract of the accessor on what a close releases

    Modelled from the spec: [close(handle)] of the Segment Accessor is a
    single-resource operation; it releases the handle it is given and
    leaves every other handle as it was. *)
Class CloseLaw (A : Accessor) : Prop := {
  close_others : forall c0 w r w',
    acc_close c0 w = (r, w') ->
    forall c, c <> c0 -> acc_live c w' = acc_live c w
}.

(** ** More streams and worlds used as examples *)

Module MoreScenarios.
Import FileWorld Scenarios.

(** Segments 1 and 2, segment 1 open, and a script. *)
Definition scripted (script : list event) : fsworld :=
  {| files := [("seg1", counting 4); ("seg2", counting 3)];
     ctxs := [fresh "seg1"];
     env := script |}.

(** The stream [flccat_open] leaves when it returns an error. *)
Definition unopened (i : Z) (fmt : string) : flccat_data :=
  {| current := {| uc := None; size := 0 |}; idx := i;
     filename_fmt := fmt; segment_start := 0 |}.

(** One file, nothing open. *)
Definition only_seg1 : fsworld := quiet [("seg1", counting 4)].





End MoreScenarios.

(** ** Streams over the file-backed accessor

    [positioned data w f pos]: nothing is scripted in [w]; the current
    context of [data] is live and open on the file of [idx], which is [f];
    the size recorded for it is the size of [f]; its position is [pos];
    and no file has a negative size. *)

Module Streams.
Import FileWorld.

Definition stands (w : fsworld) (c : nat) (name : string) (pos : Z) : Prop :=
  env w = [] /\
  exists x, nth_error (ctxs w) c = Some x /\
    fc_name x = name /\ fc_pos x = pos /\ fc_live x = true.

Record positioned (data : flccat_data) (w : fsworld) (f : file) (pos : Z)
  : Prop := {
  at_context : exists c name,
    uc (current data) = Some c /\ stands w c name pos /\
    filename_from_idx (filename_fmt data) (idx data) = Some name /\
    find_file name (files w) = Some f;
  size_recorded : size (current data) = f_size f;
  no_negative_size : forall name g,
    find_file name (files w) = Some g -> 0 <= f_size g
}.

(** The file of index [i], when there is one. *)
Definition segment_file (data : flccat_data) (w : fsworld) (i : Z) : option file :=
  match filename_from_idx (filename_fmt data) i with
  | Some name => find_file name (files w)
  | None => None
  end.

End Streams.

Module FileWorldFacts.
Import FileWorld.

Lemma tick_ctxs (w : fsworld) : ctxs (snd (tick w)) = ctxs w.
Proof.
  unfold tick. destruct (env w) as [|e rest]; [reflexivity|].
  destruct e; reflexivity.
Qed.

Lemma tick_live (w : fsworld) (c : nat) : fw_live c (snd (tick w)) = fw_live c w.
Proof. unfold fw_live. now rewrite tick_ctxs. Qed.

Lemma nth_error_set_ctx (l : list fctx) (i j : nat) (x : fctx) :
  nth_error (set_ctx i x l) j =
  if Nat.eqb i j then
    match nth_error l j with Some _ => Some x | None => None end
  else nth_error l j.
Proof.
  revert i j. induction l as [|y l IH]; intros i j.
  - destruct i, j; simpl; try reflexivity. now destruct (Nat.eqb i j).
  - destruct i, j; simpl; try reflexivity. apply IH.
Qed.

Lemma live_with_ctx (w : fsworld) (i : nat) (x y : fctx) (c : nat) :
  nth_error (ctxs w) i = Some x ->
  fw_live c (with_ctx w i y) =
  if Nat.eqb i c then fc_live y else fw_live c w.
Proof.
  intros Hx. unfold fw_live, with_ctx. simpl. rewrite nth_error_set_ctx.
  destruct (Nat.eqb_spec i c) as [->|]; [now rewrite Hx | reflexivity].
Qed.

Lemma live_with_ctx_same (w : fsworld) (i : nat) (x y : fctx) (c : nat) :
  nth_error (ctxs w) i = Some x -> fc_live y = fc_live x ->
  fw_live c (with_ctx w i y) = fw_live c w.
Proof.
  intros Hx Hy. rewrite (live_with_ctx w i x y c Hx).
  destruct (Nat.eqb_spec i c) as [->|]; [|reflexivity].
  unfold fw_live. now rewrite Hx.
Qed.

Ltac ticked w :=
  let b := fresh "failed" in
  let w1 := fresh "w" in
  let E := fresh "Etick" in
  pose proof (tick_live w) as E;
  destruct (tick w) as [b w1]; simpl in E.

Lemma fw_access_live n w b w' :
  fw_access n w = (b, w') -> forall c, fw_live c w' = fw_live c w.
Proof.
  unfold fw_access. ticked w. intros H c. rewrite <- Etick.
  destruct failed; [now inversion H|].
  destruct (find_file n (files w0)); now inversion H.
Qed.

Lemma fw_size_live c0 w r w' :
  fw_size c0 w = (r, w') -> forall c, fw_live c w' = fw_live c w.
Proof.
  unfold fw_size. ticked w. intros H c. rewrite <- Etick.
  destruct failed; [now inversion H|].
  destruct (nth_error (ctxs w0) c0) as [x|]; [|now inversion H].
  destruct (find_file (fc_name x) (files w0)); now inversion H.
Qed.

Lemma fw_read_live c0 n w r bs w' :
  fw_read c0 n w = (r, bs, w') -> forall c, fw_live c w' = fw_live c w.
Proof.
  unfold fw_read. ticked w. intros H c. rewrite <- Etick.
  destruct failed; [now inversion H|].
  destruct (nth_error (ctxs w0) c0) as [x|] eqn:Hx; [|now inversion H].
  destruct (find_file (fc_name x) (files w0)); inversion H; subst; [|reflexivity].
  now apply live_with_ctx_same with (x := x).
Qed.

Lemma fw_seek_live c0 p wh w r w' :
  fw_seek c0 p wh w = (r, w') -> forall c, fw_live c w' = fw_live c w.
Proof.
  unfold fw_seek. ticked w. intros H c. rewrite <- Etick.
  destruct failed; [now inversion H|].
  destruct (nth_error (ctxs w0) c0) as [x|] eqn:Hx; [|now inversion H].
  destruct (find_file (fc_name x) (files w0)); [|now inversion H].
  destruct (if wh =? SEEK_SET then Some 0
            else if wh =? SEEK_CUR then Some (fc_pos x)
            else if wh =? SEEK_END then Some (f_size f) else None);
    [|now inversion H].
  destruct (z + p <? 0); inversion H; subst; [reflexivity|].
  now apply live_with_ctx_same with (x := x).
Qed.

Lemma fw_close_live c0 w r w' :
  fw_close c0 w = (r, w') ->
  fw_live c0 w' = false /\ forall c, fw_live c w' = true -> fw_live c w = true.
Proof.
  unfold fw_close. ticked w. intros H. inversion H; subst; clear H.
  destruct (nth_error (ctxs w0) c0) as [x|] eqn:Hx.
  - split.
    + rewrite (live_with_ctx w0 c0 x _ c0 Hx). now rewrite Nat.eqb_refl.
    + intros c. rewrite (live_with_ctx w0 c0 x _ c Hx), <- Etick.
      destruct (Nat.eqb c0 c); [discriminate | tauto].
  - split.
    + unfold fw_live. now rewrite Hx.
    + intros c. now rewrite <- Etick.
Qed.

Lemma fw_open_fail_live n f w e u w' :
  fw_open n f w = (e, u, w') -> e < 0 ->
  u = None /\ forall c, fw_live c w' = fw_live c w.
Proof.
  unfold fw_open. ticked w. intros H He.
  destruct failed.
  - inversion H; subst. split; [reflexivity | exact Etick].
  - destruct (find_file n (files w0)); inversion H; subst.
    + discriminate He.
    + split; [reflexivity | exact Etick].
Qed.

Lemma fw_open_ok_live n f w e u w' :
  fw_open n f w = (e, u, w') -> 0 <= e ->
  exists c0, u = Some c0 /\ fw_live c0 w' = true /\
    forall c, fw_live c w' = true -> c = c0 \/ fw_live c w = true.
Proof.
  unfold fw_open. ticked w. intros H He.
  destruct failed; [inversion H; subst; now elim He|].
  destruct (find_file n (files w0)); inversion H; subst; [|now elim He].
  exists (List.length (ctxs w0)). split; [reflexivity|].
  unfold fw_live in *. simpl. split.
  - rewrite nth_error_app2 by lia. now rewrite Nat.sub_diag.
  - intros c Hc. rewrite <- Etick.
    destruct (Nat.lt_trichotomy c (List.length (ctxs w0))) as [Hlt|[->|Hgt]].
    + right. now rewrite nth_error_app1 in Hc.
    + now left.
    + rewrite nth_error_app2 in Hc by lia.
      destruct (c - List.length (ctxs w0))%nat as [|[|k]] eqn:Hk;
        [lia | discriminate Hc | discriminate Hc].
Qed.

#[export] Instance file_laws : AccessorLaws file_accessor.
Proof.
  constructor.
  - exact fw_access_live.
  - exact fw_size_live.
  - exact fw_read_live.
  - exact fw_seek_live.
  - exact fw_close_live.
  - exact fw_open_fail_live.
  - exact fw_open_ok_live.
Defined.

End FileWorldFacts.

(** * Properties *)

(** ** Machine integers *)

Lemma to_int_small (x : Z) : in_int x -> to_int x = x.
Proof.
  unfold in_int, INT_MIN, INT_MAX, to_int, wrap. intros H.
  change (2 ^ (32 - 1)) with 2147483648. change (2 ^ 32) with 4294967296.
  rewrite Z.mod_small; lia.
Qed.

Lemma to_int_range (x : Z) : in_int (to_int x).
Proof.
  unfold in_int, INT_MIN, INT_MAX, to_int, wrap.
  change (2 ^ (32 - 1)) with 2147483648. change (2 ^ 32) with 4294967296.
  pose proof (Z.mod_pos_bound (x + 2147483648) 4294967296). lia.
Qed.

Lemma to_int64_small (x : Z) : in_int64 x -> to_int64 x = x.
Proof.
  unfold in_int64, LONG_MIN, LONG_MAX, to_int64, wrap. intros H.
  change (2 ^ (64 - 1)) with 9223372036854775808.
  change (2 ^ 64) with 18446744073709551616.
  rewrite Z.mod_small; lia.
Qed.

(** ** The pattern parser *)

Module PatternFacts.

Lemma length_append (a b : string) :
  String.length (a ++ b) = (String.length a + String.length b)%nat.
Proof. induction a as [|c a IH]; simpl; [reflexivity | now rewrite IH]. Qed.

Lemma append_assoc (a b c : string) : (a ++ b) ++ c = a ++ b ++ c.
Proof. induction a as [|x a IH]; simpl; [reflexivity | now rewrite IH]. Qed.

Lemma append_empty_r (a : string) : a ++ EmptyString = a.
Proof. induction a as [|x a IH]; simpl; [reflexivity | now rewrite IH]. Qed.

Lemma char_at_app_l (a b : string) (i : nat) :
  (i < String.length a)%nat -> char_at (a ++ b) i = char_at a i.
Proof.
  unfold char_at. revert i. induction a as [|c a IH]; intros i Hi; simpl in *.
  - lia.
  - destruct i as [|i]; [reflexivity|]. apply IH. lia.
Qed.

Lemma char_at_app_r (a b : string) (i : nat) :
  char_at (a ++ b) (String.length a + i) = char_at b i.
Proof.
  unfold char_at. induction a as [|c a IH]; simpl; [reflexivity | exact IH].
Qed.

Lemma str_all_char_at (p : ascii -> bool) (s : string) (i : nat) :
  str_all p s = true -> (i < String.length s)%nat -> p (char_at s i) = true.
Proof.
  unfold char_at. revert i. induction s as [|c s IH]; intros i H Hi; simpl in *.
  - lia.
  - apply andb_true_iff in H. destruct H as [Hc Hs].
    destruct i as [|i]; [exact Hc|]. apply IH; [exact Hs | lia].
Qed.

Lemma str_take_app (a b : string) : str_take (String.length a) (a ++ b) = a.
Proof. induction a as [|c a IH]; simpl; [now destruct b | now rewrite IH]. Qed.

Lemma str_drop_app (a b : string) : str_drop (String.length a) (a ++ b) = b.
Proof. induction a as [|c a IH]; simpl; [reflexivity | exact IH]. Qed.

Lemma str_take_all (s : string) (n : nat) :
  (String.length s <= n)%nat -> str_take n s = s.
Proof.
  revert n. induction s as [|c s IH]; intros n Hn.
  - now destruct n.
  - destruct n as [|n]; simpl in *; [lia|]. rewrite IH; [reflexivity | lia].
Qed.

(** *** Digits *)

Lemma isdigit_code (c : ascii) :
  isdigit c = true <-> 48 <= char_code c <= 57.
Proof.
  unfold isdigit. rewrite andb_true_iff, !Z.leb_le. tauto.
Qed.

Lemma digit_val_range (c : ascii) : isdigit c = true -> 0 <= digit_val c <= 9.
Proof. rewrite isdigit_code. unfold digit_val. lia. Qed.

Lemma digit_char_ok (d : Z) :
  0 <= d <= 9 -> isdigit (digit_char d) = true /\ digit_val (digit_char d) = d.
Proof.
  intros H.
  assert (Hd : d = 0 \/ d = 1 \/ d = 2 \/ d = 3 \/ d = 4 \/ d = 5 \/ d = 6 \/
               d = 7 \/ d = 8 \/ d = 9) by lia.
  repeat (destruct Hd as [->|Hd]; [split; reflexivity|]).
  subst. split; reflexivity.
Qed.

Lemma digit_not_space (c : ascii) : isdigit c = true -> isspace c = false.
Proof.
  rewrite isdigit_code. unfold isspace. intros H.
  apply orb_false_iff. split.
  - apply andb_false_iff. right. apply Z.leb_gt. lia.
  - apply Z.eqb_neq. lia.
Qed.

Lemma digit_not_sign (c : ascii) :
  isdigit c = true -> Ascii.eqb c "-" = false /\ Ascii.eqb c "+" = false.
Proof.
  intros H. split.
  - destruct (Ascii.eqb_spec c "-") as [->|]; [discriminate H | reflexivity].
  - destruct (Ascii.eqb_spec c "+") as [->|]; [discriminate H | reflexivity].
Qed.

Lemma digit_not_percent (c : ascii) : isdigit c = true -> is_percent c = false.
Proof.
  intros H. unfold is_percent.
  destruct (Ascii.eqb_spec c "%") as [->|]; [discriminate H | reflexivity].
Qed.

Lemma strtol_digits_app (x y : string) (acc : Z) :
  str_all isdigit x = true ->
  strtol_digits (x ++ y) acc = strtol_digits y (strtol_digits x acc).
Proof.
  revert acc. induction x as [|c x IH]; intros acc H; simpl in *.
  - reflexivity.
  - apply andb_true_iff in H. destruct H as [Hc Hx]. rewrite Hc. now apply IH.
Qed.

Lemma strtol_digits_stop (s : string) (acc : Z) :
  str_all plain_nondigit s = true -> strtol_digits s acc = acc.
Proof.
  destruct s as [|c s]; simpl; [reflexivity|]. intros H.
  apply andb_true_iff in H. destruct H as [Hc _].
  unfold plain_nondigit in Hc. apply andb_true_iff in Hc. destruct Hc as [Hc _].
  apply negb_true_iff in Hc. now rewrite Hc.
Qed.

Lemma strtol_digits_bounds (x : string) (acc : Z) :
  str_all isdigit x = true -> 0 <= acc ->
  0 <= strtol_digits x acc < (acc + 1) * 10 ^ Z.of_nat (String.length x).
Proof.
  revert acc. induction x as [|c x IH]; intros acc H Hacc.
  - simpl. lia.
  - simpl in H. apply andb_true_iff in H. destruct H as [Hc Hx].
    cbn [strtol_digits String.length]. rewrite Hc.
    pose proof (digit_val_range c Hc) as Hv.
    assert (Hacc' : 0 <= 10 * acc + digit_val c) by lia.
    specialize (IH _ Hx Hacc').
    rewrite Nat2Z.inj_succ, Z.pow_succ_r by lia.
    assert (Hp : 0 < 10 ^ Z.of_nat (String.length x)) by (apply Z.pow_pos_nonneg; lia).
    split; [lia|].
    eapply Z.lt_le_trans; [apply IH|]. nia.
Qed.

(** *** Printing *)

Lemma dec_digits_app (fuel : nat) (n : Z) (acc : string) :
  dec_digits fuel n acc = dec_digits fuel n EmptyString ++ acc.
Proof.
  revert n acc. induction fuel as [|fuel IH]; intros n acc; simpl.
  - reflexivity.
  - destruct (n / 10 =? 0); [reflexivity|].
    rewrite (IH (n / 10) (String _ acc)), (IH (n / 10) (String _ EmptyString)).
    now rewrite append_assoc.
Qed.

Lemma dec_digits_value (fuel : nat) (n : Z) :
  0 <= n < 10 ^ Z.of_nat fuel ->
  str_all isdigit (dec_digits fuel n EmptyString) = true /\
  strtol_digits (dec_digits fuel n EmptyString) 0 = n.
Proof.
  revert n. induction fuel as [|fuel IH]; intros n Hn.
  - simpl in *. split; [reflexivity | lia].
  - rewrite Nat2Z.inj_succ, Z.pow_succ_r in Hn by lia.
    assert (Hm : 0 <= n mod 10 <= 9) by (pose proof (Z.mod_pos_bound n 10); lia).
    destruct (digit_char_ok _ Hm) as [Hd Hv].
    cbn [dec_digits].
    destruct (Z.eqb_spec (n / 10) 0) as [Hz|Hz].
    + cbn [str_all strtol_digits]. rewrite Hd, Hv. split; [reflexivity|].
      pose proof (Z.div_mod n 10). lia.
    + rewrite dec_digits_app.
      assert (Hq : 0 <= n / 10 < 10 ^ Z.of_nat fuel).
      { split; [apply Z.div_pos; lia|].
        apply Z.div_lt_upper_bound; lia. }
      destruct (IH _ Hq) as [Hall Hval]. split.
      * clear -Hall Hd. induction (dec_digits fuel (n / 10) EmptyString) as [|c s IHs];
          simpl in *; [now rewrite Hd|].
        apply andb_true_iff in Hall. destruct Hall as [Hc Hs].
        rewrite Hc. now apply IHs.
      * rewrite strtol_digits_app by exact Hall. rewrite Hval.
        cbn [strtol_digits]. rewrite Hd, Hv.
        pose proof (Z.div_mod n 10). lia.
Qed.

Lemma dec_digits_nonempty (fuel : nat) (n : Z) (acc : string) :
  dec_digits (S fuel) n acc <> EmptyString.
Proof.
  rewrite dec_digits_app. cbn [dec_digits].
  destruct (n / 10 =? 0); [discriminate|].
  rewrite dec_digits_app. destruct (dec_digits fuel (n / 10) EmptyString); discriminate.
Qed.

Lemma dec_digits_length (fuel : nat) (n : Z) (acc : string) (m : nat) :
  0 <= n < 10 ^ Z.of_nat m -> (1 <= m)%nat ->
  (String.length (dec_digits fuel n acc) <= m + String.length acc)%nat.
Proof.
  revert n acc m. induction fuel as [|fuel IH]; intros n acc m Hn Hm.
  - simpl. lia.
  - cbn [dec_digits]. destruct (Z.eqb_spec (n / 10) 0) as [Hz|Hz].
    + simpl. lia.
    + destruct m as [|[|m]]; [lia | |].
      * exfalso. apply Hz. apply Z.div_small. simpl in Hn. lia.
      * rewrite Nat2Z.inj_succ, Z.pow_succ_r in Hn by lia.
        assert (Hq : 0 <= n / 10 < 10 ^ Z.of_nat (S m)).
        { split; [apply Z.div_pos; lia|].
          apply Z.div_lt_upper_bound; lia. }
        pose proof (IH (n / 10) (String (digit_char (n mod 10)) acc) (S m) Hq) as H.
        simpl in H. simpl. lia.
Qed.

Lemma print_int_facts (d : string) :
  d <> EmptyString -> str_all isdigit d = true -> strtol_digits d 0 <= INT_MAX ->
  let v := strtol_digits d 0 in
  print_int v <> EmptyString /\
  str_all isdigit (print_int v) = true /\
  strtol_digits (print_int v) 0 = v /\
  (String.length (print_int v) <= String.length d)%nat.
Proof.
  intros Hne Hall Hmax v.
  destruct (strtol_digits_bounds d 0 Hall) as [Hlo Hhi]; [lia|].
  fold v in Hlo, Hhi, Hmax.
  unfold print_int. replace (v <? 0) with false by (symmetry; apply Z.ltb_ge; lia).
  assert (Hv10 : 0 <= v < 10 ^ Z.of_nat 10).
  { unfold INT_MAX in Hmax. change (10 ^ Z.of_nat 10) with 10000000000. lia. }
  destruct (dec_digits_value 10 v Hv10) as [Hd Hval].
  split; [apply dec_digits_nonempty|]. split; [exact Hd|]. split; [exact Hval|].
  assert (Hlen : (1 <= String.length d)%nat) by (destruct d; [congruence | simpl; lia]).
  pose proof (dec_digits_length 10 v EmptyString (String.length d)) as H.
  simpl String.length in H. rewrite Nat.add_0_r in H. apply H; [lia | exact Hlen].
Qed.

(** *** The scans *)

Lemma ends_nondigit_last (p : string) :
  ends_nondigit p = true ->
  (1 <= String.length p)%nat /\
  isdigit (char_at p (String.length p - 1)) = false.
Proof.
  induction p as [|c p IH]; [discriminate|].
  destruct p as [|c' p].
  - simpl. intros H. apply negb_true_iff in H. split; [lia | exact H].
  - intros H. change (ends_nondigit (String c' p) = true) in H.
    destruct (IH H) as [Hlen Hlast]. split; [simpl; lia|].
    replace (String.length (String c (String c' p)) - 1)%nat
      with (S (String.length (String c' p) - 1)) by (simpl in *; lia).
    exact Hlast.
Qed.

Section Scans.

Variables p d s : string.
Hypothesis Hp : ends_nondigit p = true.
Hypothesis Hd : str_all isdigit d = true.
Hypothesis Hdne : d <> EmptyString.
Hypothesis Hs : str_all plain_nondigit s = true.

Let uri := p ++ d ++ s.
Let np := String.length p.
Let nd := String.length d.

Lemma lengths_positive : (1 <= np)%nat /\ (1 <= nd)%nat.
Proof.
  split; [apply (ends_nondigit_last p Hp)|].
  subst nd. destruct d; [congruence | simpl; lia].
Qed.

Lemma uri_digit (k : nat) :
  (k < nd)%nat -> isdigit (char_at uri (np + k)) = true.
Proof.
  intros Hk. subst uri np. rewrite char_at_app_r, char_at_app_l by exact Hk.
  now apply str_all_char_at.
Qed.

Lemma uri_suffix (k : nat) :
  (k < String.length s)%nat -> isdigit (char_at uri (np + nd + k)) = false.
Proof.
  intros Hk. subst uri np nd. rewrite <- Nat.add_assoc, char_at_app_r, char_at_app_r.
  pose proof (str_all_char_at _ _ _ Hs Hk) as H. unfold plain_nondigit in H.
  apply andb_true_iff in H. destruct H as [H _]. now apply negb_true_iff in H.
Qed.

Lemma uri_prefix_last : isdigit (char_at uri (np - 1)) = false.
Proof.
  destruct (ends_nondigit_last p Hp) as [Hlen Hlast].
  subst uri np. rewrite char_at_app_l by lia. exact Hlast.
Qed.

Lemma back_over_nondigits_suffix (k : nat) :
  (k <= String.length s)%nat ->
  back_over_nondigits uri (np + nd - 1 + k) = (np + nd - 1)%nat.
Proof.
  destruct lengths_positive as [H1 H2].
  induction k as [|k IH]; intros Hk.
  - rewrite Nat.add_0_r.
    replace (np + nd - 1)%nat with (S (np + nd - 2)) by lia.
    cbn [back_over_nondigits].
    replace (S (np + nd - 2)) with (np + (nd - 1))%nat by lia.
    rewrite uri_digit by lia. reflexivity.
  - replace (np + nd - 1 + S k)%nat with (S (np + nd - 1 + k)) by lia.
    cbn [back_over_nondigits].
    replace (S (np + nd - 1 + k)) with (np + nd + k)%nat by lia.
    rewrite uri_suffix by lia. apply IH. lia.
Qed.

Lemma back_over_digits_run (k : nat) :
  (k < nd)%nat -> back_over_digits uri (np + k) = (np - 1)%nat.
Proof.
  destruct lengths_positive as [H1 H2].
  induction k as [|k IH]; intros Hk.
  - rewrite Nat.add_0_r. replace np with (S (np - 1)) at 1 by lia.
    cbn [back_over_digits]. replace (S (np - 1)) with (np + 0)%nat by lia.
    rewrite uri_digit by lia.
    destruct (np - 1)%nat as [|j] eqn:Hj; [reflexivity|].
    cbn [back_over_digits]. rewrite <- Hj, uri_prefix_last. reflexivity.
  - replace (np + S k)%nat with (S (np + k)) by lia.
    cbn [back_over_digits]. replace (S (np + k)) with (np + S k)%nat by lia.
    rewrite uri_digit by lia. apply IH. lia.
Qed.

Lemma strtol_run : strtol (d ++ s) = Z.min LONG_MAX (strtol_digits d 0).
Proof.
  destruct d as [|c d'] eqn:Ed; [congruence|].
  simpl in Hd. apply andb_true_iff in Hd. destruct Hd as [Hc Hd'].
  unfold strtol. cbn [append skip_space].
  rewrite (digit_not_space c Hc).
  destruct (digit_not_sign c Hc) as [-> ->].
  change (String c (d' ++ s)) with (String c d' ++ s).
  rewrite strtol_digits_app by (simpl; now rewrite Hc).
  now rewrite strtol_digits_stop.
Qed.

(** What the parser makes of [p ++ d ++ s]. *)
Lemma pattern_of_uri_run :
  (String.length uri < 1023)%nat ->
  strtol_digits d 0 <= INT_MAX ->
  pattern_of_uri uri = Pattern (strtol_digits d 0) (p ++ "%d" ++ s).
Proof.
  intros Hlen Hmax. destruct lengths_positive as [H1 H2].
  assert (Hl : String.length uri = (np + nd + String.length s)%nat).
  { subst uri np nd. rewrite !length_append. lia. }
  assert (E1 : back_over_nondigits uri (String.length uri - 1) = (np + nd - 1)%nat).
  { replace (String.length uri - 1)%nat
      with (np + nd - 1 + String.length s)%nat by lia.
    apply back_over_nondigits_suffix. lia. }
  assert (E2 : back_over_digits uri (np + nd - 1) = (np - 1)%nat).
  { replace (np + nd - 1)%nat with (np + (nd - 1))%nat by lia.
    apply back_over_digits_run. lia. }
  unfold pattern_of_uri, strnlen.
  change (FILENAME_FMT_MAX_LENGTH - 1)%nat with 1023%nat.
  rewrite (Nat.min_l _ 1023) by lia.
  rewrite E1, E2.
  replace (np - 1 + 1)%nat with np by lia.
  replace (np + nd - 1 + 1)%nat with (np + nd)%nat by lia.
  replace (np =? np + nd)%nat with false by (symmetry; apply Nat.eqb_neq; lia).
  cbn [negb].
  replace (FILENAME_FMT_MAX_LENGTH <=? np + 2 + (String.length uri - (np + nd)))%nat
    with false by (symmetry; apply Nat.leb_gt; unfold FILENAME_FMT_MAX_LENGTH; lia).
  unfold av_strlcpy.
  replace (np + 1 - 1)%nat with np by lia.
  replace (String.length uri - (np + nd) + 1 - 1)%nat with (String.length s) by lia.
  assert (Hdrop1 : str_drop np uri = d ++ s) by apply str_drop_app.
  assert (Hdrop2 : str_drop (np + nd) uri = s).
  { subst uri np nd. rewrite <- length_append, <- append_assoc. apply str_drop_app. }
  assert (Htake : str_take np uri = p) by apply str_take_app.
  rewrite Hdrop1, Hdrop2, Htake, strtol_run.
  rewrite (str_take_all s) by lia.
  destruct (strtol_digits_bounds d 0 Hd) as [Hlo _]; [lia|].
  rewrite Z.min_r by (unfold INT_MAX, LONG_MAX in *; lia).
  rewrite to_int_small by (unfold in_int, INT_MIN; lia).
  reflexivity.
Qed.

End Scans.

(** *** Formatting *)

Lemma format_int_plain (s : string) (args : option Z) :
  str_all plain s = true -> format_int s args = Some s.
Proof.
  induction s as [|c s IH]; [reflexivity|]. simpl. intros H.
  apply andb_true_iff in H. destruct H as [Hc Hs].
  unfold plain, is_percent in Hc. apply negb_true_iff in Hc. rewrite Hc.
  now rewrite (IH Hs).
Qed.

Lemma format_int_pattern (p s : string) (n : Z) :
  str_all plain p = true -> str_all plain s = true ->
  format_int (p ++ "%d" ++ s) (Some n) = Some (p ++ print_int n ++ s).
Proof.
  intros Hp Hs. change ("%d" ++ s) with (String "%" (String "d" s)).
  induction p as [|c p IH].
  - cbn [append format_int]. change (Ascii.eqb "%" "%") with true.
    change (Ascii.eqb "d" "d") with true. cbv iota.
    now rewrite (format_int_plain s None Hs).
  - simpl in Hp. apply andb_true_iff in Hp. destruct Hp as [Hc Hp].
    unfold plain, is_percent in Hc. apply negb_true_iff in Hc.
    cbn [append format_int]. rewrite Hc. now rewrite (IH Hp).
Qed.

Lemma plain_nondigit_plain (s : string) :
  str_all plain_nondigit s = true -> str_all plain s = true.
Proof.
  induction s as [|c s IH]; [reflexivity|]. simpl. intros H.
  apply andb_true_iff in H. destruct H as [Hc Hs].
  unfold plain_nondigit in Hc. apply andb_true_iff in Hc. destruct Hc as [_ Hc].
  change (plain c) with (negb (is_percent c)). rewrite Hc. exact (IH Hs).
Qed.

(** *** The last digit run *)

Lemma last_digit_run_prefix (p : string) :
  ends_nondigit p = true ->
  forall run last, exists last',
    forall r, last_digit_run (p ++ r) run last = last_digit_run r None last'.
Proof.
  induction p as [|c p IH]; [discriminate|]. intros H run last.
  destruct p as [|c' p].
  - simpl in H. apply negb_true_iff in H. cbn [append last_digit_run].
    rewrite H. eauto.
  - change (ends_nondigit (String c' p) = true) in H.
    cbn [append last_digit_run].
    change (String c' (p ++ ?r)) with (String c' p ++ r).
    destruct (isdigit c).
    + destruct (IH H (Some (10 * match run with Some v => v | None => 0 end
                             + digit_val c)) last) as [l Hl].
      exists l. intros r. apply (Hl r).
    + destruct (IH H None (match run with Some v => Some v | None => last end))
        as [l Hl].
      exists l. intros r. apply (Hl r).
Qed.

Lemma last_digit_run_digits (d r : string) (run last : option Z) :
  d <> EmptyString -> str_all isdigit d = true ->
  last_digit_run (d ++ r) run last
  = last_digit_run r
      (Some (strtol_digits d (match run with Some v => v | None => 0 end))) last.
Proof.
  revert run. induction d as [|c d IH]; [congruence|]. intros run _ H.
  simpl in H. apply andb_true_iff in H. destruct H as [Hc Hd].
  cbn [append last_digit_run strtol_digits]. rewrite Hc.
  destruct d as [|c' d].
  - reflexivity.
  - rewrite IH; [reflexivity | discriminate | exact Hd].
Qed.

Lemma last_digit_run_suffix (s : string) (run last : option Z) :
  str_all plain_nondigit s = true ->
  last_digit_run s run last
  = match run with Some v => Some v | None => last end.
Proof.
  revert run last. induction s as [|c s IH]; intros run last H; [reflexivity|].
  simpl in H. apply andb_true_iff in H. destruct H as [Hc Hs].
  unfold plain_nondigit in Hc. apply andb_true_iff in Hc. destruct Hc as [Hc _].
  apply negb_true_iff in Hc. cbn [last_digit_run]. rewrite Hc.
  rewrite (IH _ _ Hs). reflexivity.
Qed.

Lemma trailing_number_run (p d s : string) :
  ends_nondigit p = true -> d <> EmptyString -> str_all isdigit d = true ->
  str_all plain_nondigit s = true ->
  trailing_number (p ++ d ++ s) = Some (strtol_digits d 0).
Proof.
  intros Hp Hne Hd Hs. unfold trailing_number.
  destruct (last_digit_run_prefix p Hp None None) as [l Hl].
  rewrite Hl, (last_digit_run_digits d s None l Hne Hd).
  now rewrite last_digit_run_suffix.
Qed.

(** C4: a path made of a prefix that ends with a character that is not a
    digit, a run of digits whose value fits an [int], and a suffix
    without digit, with no percent sign outside the run and fewer than
    1023 characters in all, is parsed into the template
    prefix [%d] suffix and the value of the run; the file name of that
    index is the prefix, the value in decimal and the suffix, and its
    last digit run has the value of the last digit run of the path. *)
Theorem pattern_reproduces_trailing_number (p d s : string) :
  ends_nondigit p = true -> str_all plain p = true ->
  d <> EmptyString -> str_all isdigit d = true -> strtol_digits d 0 <= INT_MAX ->
  str_all plain_nondigit s = true ->
  (String.length (p ++ d ++ s) < 1023)%nat ->
  let v := strtol_digits d 0 in
  pattern_of_uri (p ++ d ++ s) = Pattern v (p ++ "%d" ++ s) /\
  filename_from_idx (p ++ "%d" ++ s) v = Some (p ++ print_int v ++ s) /\
  trailing_number (p ++ print_int v ++ s) = Some v /\
  trailing_number (p ++ d ++ s) = Some v.
Proof.
  intros Hp Hpp Hne Hd Hmax Hs Hlen v.
  destruct (print_int_facts d Hne Hd Hmax) as (Hpne & Hpd & Hpv & Hpl).
  fold v in Hpne, Hpd, Hpv, Hpl.
  split; [now apply pattern_of_uri_run|]. split; [|split].
  - unfold filename_from_idx, snprintf.
    rewrite (format_int_pattern p s v Hpp (plain_nondigit_plain s Hs)).
    rewrite str_take_all; [reflexivity|].
    rewrite !length_append in *. unfold FILENAME_FMT_MAX_LENGTH. lia.
  - rewrite (trailing_number_run p (print_int v) s Hp Hpne Hpd Hs).
    now rewrite Hpv.
  - now apply trailing_number_run.
Qed.

Lemma pattern_reproduces_trailing_number_witness :
  pattern_of_uri ("/rec/cam1_" ++ "0042" ++ ".ts")
    = Pattern 42 ("/rec/cam1_" ++ "%d" ++ ".ts") /\
  filename_from_idx ("/rec/cam1_" ++ "%d" ++ ".ts") 42
    = Some ("/rec/cam1_" ++ print_int 42 ++ ".ts") /\
  trailing_number ("/rec/cam1_" ++ print_int 42 ++ ".ts") = Some 42 /\
  trailing_number ("/rec/cam1_" ++ "0042" ++ ".ts") = Some 42.
Proof.
  apply (pattern_reproduces_trailing_number "/rec/cam1_" "0042" ".ts").
  - reflexivity.
  - reflexivity.
  - discriminate.
  - reflexivity.
  - vm_compute. discriminate.
  - reflexivity.
  - vm_compute. lia.
Defined.

(** C4, as stated, fails: the digits of [seg4294967297] are read by
    [strtol] and stored in an [int], which leaves 1; the file name of the
    parsed index is [seg1]. *)
Lemma pattern_wraps_large_number :
  pattern_of_uri "seg4294967297" = Pattern 1 "seg%d" /\
  filename_from_idx "seg%d" 1 = Some "seg1" /\
  trailing_number "seg1" = Some 1 /\
  trailing_number "seg4294967297" = Some 4294967297 /\
  trailing_number "seg1" <> trailing_number "seg4294967297".
Proof. repeat split; try reflexivity. discriminate. Qed.

(** Paths left out of C4: a digit run that starts the path loses its first
    digit to the prefix or is not found, and a percent sign of the path
    becomes a directive of the template. *)
Lemma pattern_of_uri_edge_cases :
  pattern_of_uri "100" = Pattern 0 "1%d" /\
  filename_from_idx "1%d" 0 = Some "10" /\
  pattern_of_uri "5" = NoDigitRun 0 /\
  pattern_of_uri "50%_7" = Pattern 7 "50%_%d" /\
  filename_from_idx "50%_%d" 7 = None.
Proof. repeat split; reflexivity. Qed.

End PatternFacts.

(** ** Outcomes *)

Lemma bind_done {A B : Type} (m : outcome A) (k : A -> outcome B) (b : B) :
  bind m k = Done b -> exists a, m = Done a /\ k a = Done b.
Proof. destruct m; simpl; intros H; try discriminate. eauto. Qed.

(** Splits a hypothesis [bind m k = Done b] into the two runs. *)
Ltac bind_inv H :=
  let x := fresh "x" in
  let E := fresh "E" in
  apply bind_done in H; destruct H as [x [E H]].

Section Navigation.

Context {A : Accessor}.

Lemma through_done {R : Type} (u : option context) (w : world)
  (call : context -> world -> R) (r : R) :
  through u w call = Done r ->
  exists c, u = Some c /\ acc_live c w = true /\ call c w = r.
Proof.
  unfold through. destruct u as [c|]; [|discriminate].
  destruct (acc_live c w) eqn:Hl; [|discriminate].
  intros H. inversion H. eauto.
Qed.

Lemma ffurl_close_done (u : option context) (w : world) (r : Z) (w' : world) :
  ffurl_close u w = Done (r, w') ->
  (u = None /\ r = 0 /\ w' = w) \/
  (exists c, u = Some c /\ acc_live c w = true /\ acc_close c w = (r, w')).
Proof.
  unfold ffurl_close. destruct u as [c|].
  - destruct (acc_live c w) eqn:Hl; [|discriminate].
    intros H. inversion H. right. eauto.
  - intros H. inversion H. now left.
Qed.

Lemma update_current_size_done (cur : flccat_nodes) (w : world)
  (r : Z) (cur' : flccat_nodes) (w' : world) :
  update_current_size cur w = Done (r, cur', w') ->
  uc cur' = uc cur /\
  ffurl_size (uc cur) w = Done (r, w') /\
  (r < 0 /\ cur' = cur \/ 0 <= r /\ size cur' = r).
Proof.
  unfold update_current_size. intros H. bind_inv H. destruct x as [r0 w0].
  destruct (r0 <? 0) eqn:Hr; inversion H; subst; clear H.
  - apply Z.ltb_lt in Hr. auto.
  - apply Z.ltb_ge in Hr. simpl. auto.
Qed.

(** [open_filename] touches nothing but [current]. *)
Lemma open_filename_frame (filename : string) (flags : Z) (data : flccat_data)
  (w : world) (e : Z) (data' : flccat_data) (w' : world) :
  open_filename filename flags data w = Done (e, data', w') ->
  idx data' = idx data /\ segment_start data' = segment_start data /\
  filename_fmt data' = filename_fmt data.
Proof.
  unfold open_filename. destruct (acc_open filename flags w) as [[err puc] w1].
  destruct (err <? 0).
  - intros H. inversion H; subst. auto.
  - intros H. bind_inv H. destruct x as [[r cur] w2].
    destruct (r <? 0).
    + bind_inv H. destruct x as [z w3]. inversion H; subst. auto.
    + inversion H; subst. auto.
Qed.

(** What [open_filename] leaves behind when it succeeds: result 0, a
    context, and the size it measured, which is not negative. *)
Lemma open_filename_ok (filename : string) (flags : Z) (data : flccat_data)
  (w : world) (e : Z) (data' : flccat_data) (w' : world) :
  open_filename filename flags data w = Done (e, data', w') -> 0 <= e ->
  e = 0 /\ 0 <= size (current data') /\
  idx data' = idx data /\ segment_start data' = segment_start data /\
  filename_fmt data' = filename_fmt data /\
  exists c, uc (current data') = Some c.
Proof.
  unfold open_filename. destruct (acc_open filename flags w) as [[err puc] w1].
  destruct (err <? 0) eqn:Herr.
  - intros H He. inversion H; subst. apply Z.ltb_lt in Herr. lia.
  - intros H He. bind_inv H. destruct x as [[r cur] w2].
    apply update_current_size_done in E. destruct E as [Huc [Hsz Hr]].
    destruct (r <? 0) eqn:Hneg.
    + bind_inv H. destruct x as [z w3]. inversion H; subst.
      unfold AVERROR, ENOSYS in He. lia.
    + inversion H; subst; clear H. apply Z.ltb_ge in Hneg.
      destruct Hr as [[Hr _]|[_ Hr]]; [lia|].
      simpl. rewrite Hr. repeat split; try lia.
      apply through_done in Hsz. destruct Hsz as [c [Hc _]].
      exists c. rewrite Huc. exact Hc.
Qed.

(** What a call of [progress] that returns 1 has done. *)
Lemma progress_switched (direction : Z) (data : flccat_data) (w : world)
  (data' : flccat_data) (w' : world) :
  progress direction data w = Done (1, data', w') ->
  idx data' = add32 (idx data) direction /\
  0 <= size (current data') /\
  filename_fmt data' = filename_fmt data /\
  exists filename w1 size_first w2,
    filename_from_idx (filename_fmt data) (add32 (idx data) direction)
      = Some filename /\
    file_exist_filename filename w = (true, w1) /\
    ffurl_size (uc (current data)) w1 = Done (size_first, w2) /\
    segment_start data' =
      if direction >? 0 then add64 (segment_start data) size_first
      else sub64 (segment_start data) (size (current data')).
Proof.
  unfold progress. intros H.
  destruct (negb ((direction =? 1) || (direction =? -1))); [discriminate|].
  bind_inv H. rename x into filename.
  destruct (filename_from_idx (filename_fmt data) (add32 (idx data) direction))
    as [fn|] eqn:Hfn; [|discriminate]. inversion E; subst fn; clear E.
  destruct (file_exist_filename filename w) as [found w1] eqn:Hprobe.
  destruct found; [|inversion H].
  bind_inv H. destruct x as [size_first w2].
  bind_inv H. destruct x as [err w3].
  destruct (err <? 0) eqn:Herr; [inversion H; subst; discriminate|].
  bind_inv H. rename x into flags.
  bind_inv H. destruct x as [[e d1] w4].
  destruct (e <? 0) eqn:He; [inversion H; subst; discriminate|].
  apply Z.ltb_ge in He.
  destruct (open_filename_ok _ _ _ _ _ _ _ E2 He) as (_ & Hsz & Hidx & Hst & Hfmt & _).
  bind_inv H. destruct x as [sk w5].
  assert (Hd : data' =
    (if direction >? 0
     then set_segment_start (set_idx d1 (add32 (idx d1) direction))
            (add64 (segment_start (set_idx d1 (add32 (idx d1) direction)))
               size_first)
     else set_segment_start (set_idx d1 (add32 (idx d1) direction))
            (sub64 (segment_start (set_idx d1 (add32 (idx d1) direction)))
               (size (current (set_idx d1 (add32 (idx d1) direction))))))).
  { destruct (sk <? 0); inversion H; reflexivity. }
  clear H. subst data'.
  destruct (direction >? 0); simpl; rewrite Hidx, Hst, Hfmt;
    (repeat split; try assumption; try reflexivity);
    exists filename, w1, size_first, w2; auto.
Qed.

(** The results of [progress]: 1, 0, or an error code. *)
Lemma progress_not_switched (direction : Z) (data : flccat_data) (w : world)
  (data' : flccat_data) (w' : world) :
  progress direction data w = Done (0, data', w') ->
  data' = data /\
  exists filename,
    filename_from_idx (filename_fmt data) (add32 (idx data) direction)
      = Some filename /\
    file_exist_filename filename w = (false, w').
Proof.
  unfold progress. intros H.
  destruct (negb ((direction =? 1) || (direction =? -1))); [discriminate|].
  bind_inv H. rename x into filename.
  destruct (filename_from_idx (filename_fmt data) (add32 (idx data) direction))
    as [fn|] eqn:Hfn; [|discriminate]. inversion E; subst fn; clear E.
  destruct (file_exist_filename filename w) as [found w1] eqn:Hprobe.
  destruct found.
  - exfalso.
    bind_inv H. destruct x as [size_first w2].
    bind_inv H. destruct x as [err w3].
    destruct (err <? 0) eqn:Herr; [inversion H; subst; discriminate|].
    bind_inv H. bind_inv H. destruct x0 as [[e d1] w4].
    destruct (e <? 0) eqn:He; [inversion H; subst; discriminate|].
    bind_inv H. destruct x0 as [sk w5].
    destruct (sk <? 0) eqn:Hsk; inversion H; subst. discriminate.
  - inversion H; subst. split; [reflexivity|]. exists filename. auto.
Qed.

(** The run of [progress] up to a failed [open_filename]. *)
Lemma progress_after_failed_open
  (direction : Z) (data : flccat_data) (w : world)
  (filename : string) (w1 : world) (size_first : Z) (w2 : world)
  (r : Z) (w3 : world) (flags : Z)
  (e : Z) (data' : flccat_data) (w4 : world) :
  direction = 1 \/ direction = -1 ->
  filename_from_idx (filename_fmt data) (add32 (idx data) direction)
    = Some filename ->
  file_exist_filename filename w = (true, w1) ->
  ffurl_size (uc (current data)) w1 = Done (size_first, w2) ->
  close_current data w2 = Done (r, w3) -> 0 <= r ->
  current_flags data w3 = Done flags ->
  open_filename filename flags data w3 = Done (e, data', w4) -> e < 0 ->
  progress direction data w = Done (e, data', w4).
Proof.
  intros Hdir Hfn Hprobe Hsize Hclose Hr Hflags Hopen He.
  unfold progress.
  replace (negb ((direction =? 1) || (direction =? -1))) with false
    by (destruct Hdir; subst; reflexivity).
  rewrite Hfn. simpl. rewrite Hprobe, Hsize. simpl. rewrite Hclose. simpl.
  replace (r <? 0) with false by (symmetry; apply Z.ltb_ge; exact Hr).
  rewrite Hflags. simpl. rewrite Hopen. simpl.
  replace (e <? 0) with true by (symmetry; apply Z.ltb_lt; exact He).
  reflexivity.
Qed.

(** C5: when the candidate passes the probe and the open that follows
    fails, [progress] returns the error of the open, which is negative and
    so never the 0 of "not switched". *)
Theorem progress_open_error_propagates
  (direction : Z) (data : flccat_data) (w : world)
  (filename : string) (w1 : world) (size_first : Z) (w2 : world)
  (r : Z) (w3 : world) (flags : Z)
  (e : Z) (data' : flccat_data) (w4 : world) :
  direction = 1 \/ direction = -1 ->
  filename_from_idx (filename_fmt data) (add32 (idx data) direction)
    = Some filename ->
  file_exist_filename filename w = (true, w1) ->
  ffurl_size (uc (current data)) w1 = Done (size_first, w2) ->
  close_current data w2 = Done (r, w3) -> 0 <= r ->
  current_flags data w3 = Done flags ->
  open_filename filename flags data w3 = Done (e, data', w4) -> e < 0 ->
  progress direction data w = Done (e, data', w4) /\ e <> 0.
Proof.
  intros Hdir Hfn Hprobe Hsize Hclose Hr Hflags Hopen He.
  split; [|lia].
  now apply (progress_after_failed_open direction data w filename w1
               size_first w2 r w3 flags).
Qed.

Context {L : AccessorLaws A}.

(** What a failed [open_filename] leaves behind: no context that was not
    live before, and a current pointer that is null or released. *)
Lemma open_filename_failed (filename : string) (flags : Z) (data : flccat_data)
  (w : world) (e : Z) (data' : flccat_data) (w' : world) :
  open_filename filename flags data w = Done (e, data', w') -> e < 0 ->
  (forall c, acc_live c w' = true -> acc_live c w = true) /\
  idx data' = idx data /\ segment_start data' = segment_start data /\
  filename_fmt data' = filename_fmt data /\
  match uc (current data') with
  | Some c0 => acc_live c0 w' = false
  | None => True
  end.
Proof.
  unfold open_filename.
  destruct (acc_open filename flags w) as [[err puc] w1] eqn:Hopen.
  destruct (err <? 0) eqn:Herr.
  - intros H He. inversion H; subst; clear H.
    destruct (open_fail_live _ _ _ _ _ _ Hopen He) as [-> Hlive].
    simpl. repeat split; auto. intros c. now rewrite Hlive.
  - intros H He. apply Z.ltb_ge in Herr.
    destruct (open_ok_live _ _ _ _ _ _ Hopen Herr) as (c0 & -> & Hc0 & Hothers).
    bind_inv H. destruct x as [[r cur] w2].
    apply update_current_size_done in E. destruct E as [Huc [Hsz Hr]].
    simpl in Huc, Hsz. unfold ffurl_size, through in Hsz.
    rewrite Hc0 in Hsz. inversion Hsz as [Hsize]. clear Hsz.
    destruct (r <? 0) eqn:Hneg.
    + bind_inv H. destruct x as [z w3]. inversion H; subst; clear H.
      simpl in E. rewrite Huc in E.
      apply ffurl_close_done in E.
      destruct E as [[E _]|(c & Hc & _ & Hclose)]; [discriminate|].
      inversion Hc; subst c; clear Hc.
      destruct (close_live _ _ _ _ Hclose) as [Hdead Hsub].
      simpl. rewrite Huc. repeat split; auto.
      intros c Hlive. pose proof (Hsub c Hlive) as H2.
      rewrite (size_live _ _ _ _ Hsize) in H2.
      destruct (Hothers c H2) as [->|]; [congruence | assumption].
    + inversion H; subst. lia.
Qed.

(** C10: when the close of the current segment succeeds and the open of
    the candidate fails, [progress] returns the error and does not go back:
    the context of the previous segment, live before the call, is released,
    no context is live afterwards, and index, template and segment start
    are as before the call. *)
Theorem progress_open_failure_not_restored
  (direction : Z) (data : flccat_data) (w : world) (c : context)
  (filename : string) (w1 : world) (size_first : Z) (w2 : world)
  (r : Z) (w3 : world) (flags : Z)
  (e : Z) (data' : flccat_data) (w4 : world) :
  direction = 1 \/ direction = -1 ->
  uc (current data) = Some c ->
  (forall c', acc_live c' w = true -> c' = c) ->
  filename_from_idx (filename_fmt data) (add32 (idx data) direction)
    = Some filename ->
  file_exist_filename filename w = (true, w1) ->
  ffurl_size (uc (current data)) w1 = Done (size_first, w2) ->
  close_current data w2 = Done (r, w3) -> 0 <= r ->
  current_flags data w3 = Done flags ->
  open_filename filename flags data w3 = Done (e, data', w4) -> e < 0 ->
  progress direction data w = Done (e, data', w4) /\
  acc_live c w = true /\
  (forall c', acc_live c' w4 = false) /\
  idx data' = idx data /\ segment_start data' = segment_start data /\
  filename_fmt data' = filename_fmt data.
Proof.
  intros Hdir Huc Honly Hfn Hprobe Hsize Hclose Hr Hflags Hopen He.
  split.
  { now apply (progress_after_failed_open direction data w filename w1
                 size_first w2 r w3 flags). }
  destruct (open_filename_failed _ _ _ _ _ _ _ Hopen He)
    as (Hsub & Hidx & Hst & Hfmt & _).
  rewrite Huc in Hsize. unfold ffurl_size in Hsize. apply through_done in Hsize.
  destruct Hsize as (c1 & Hc1 & Hlive1 & Hsz). inversion Hc1; subst c1; clear Hc1.
  unfold close_current in Hclose. rewrite Huc in Hclose.
  apply ffurl_close_done in Hclose.
  destruct Hclose as [[Hn _]|(c1 & Hc1 & _ & Hcl)]; [discriminate|].
  inversion Hc1; subst c1; clear Hc1.
  destruct (close_live _ _ _ _ Hcl) as [Hdead Hsub3].
  unfold file_exist_filename in Hprobe.
  assert (Hlive : acc_live c w = true)
    by (rewrite <- (access_live _ _ _ _ Hprobe); exact Hlive1).
  repeat split; auto.
  intros c'. destruct (acc_live c' w4) eqn:Hl; [|reflexivity]. exfalso.
  pose proof (Hsub3 c' (Hsub c' Hl)) as H2.
  rewrite (size_live _ _ _ _ Hsz), (access_live _ _ _ _ Hprobe) in H2.
  rewrite (Honly c' H2) in Hl.
  pose proof (Hsub c Hl) as H3. congruence.
Qed.

(** C8 (the code departs from it): when the open of the seed segment
    succeeds and its size cannot be determined, [open_filename] closes the
    context, and [flccat_close] then closes the same context, which is
    released, a second time: the call has no defined result. *)
Theorem flccat_open_size_failure (uri path : string) (flags : Z) (w : world)
  (i : Z) (fmt filename : string) (e : Z) (u : option context) (w1 : world)
  (c : context) (r : Z) (w2 : world) :
  av_strstart uri "flccat:" = Some path ->
  String.eqb path EmptyString = false ->
  pattern_of_uri path = Pattern i fmt ->
  filename_from_idx fmt i = Some filename ->
  acc_open filename flags w = (e, u, w1) -> 0 <= e ->
  u = Some c ->
  acc_size c w1 = (r, w2) -> r < 0 ->
  flccat_open uri flags w = Undefined.
Proof.
  intros Hstart Hne Hpat Hfn Hopen He Hu Hsize Hr.
  destruct (open_ok_live _ _ _ _ _ _ Hopen He) as (c0 & Hc0 & Hlive & _).
  rewrite Hu in Hc0. inversion Hc0; subst c0; clear Hc0.
  unfold flccat_open. rewrite Hstart, Hne, Hpat.
  unfold open_idx. simpl. rewrite Hfn. simpl.
  unfold open_filename. rewrite Hopen.
  replace (e <? 0) with false by (symmetry; apply Z.ltb_ge; exact He).
  assert (Hrlt : (r <? 0) = true) by (apply Z.ltb_lt; exact Hr).
  rewrite Hu. unfold update_current_size, ffurl_size, through. simpl.
  rewrite Hlive, Hsize. simpl. rewrite Hrlt. simpl. rewrite Hrlt. simpl.
  rewrite (size_live _ _ _ _ Hsize), Hlive.
  destruct (acc_close c w2) as [z w3] eqn:Hclose. simpl.
  destruct (close_live _ _ _ _ Hclose) as [Hdead _].
  unfold flccat_close, ffurl_close. simpl. rewrite Hdead. reflexivity.
Qed.

(** When [flccat_open] returns an error, no context is live that was not
    live before the call. *)
Lemma flccat_open_error_leaves_nothing (uri : string) (flags : Z) (w : world)
  (e : Z) (data : flccat_data) (w' : world) :
  flccat_open uri flags w = Done (e, data, w') -> e < 0 ->
  forall c, acc_live c w' = true -> acc_live c w = true.
Proof.
  unfold flccat_open.
  destruct (String.eqb _ _); [intros H; inversion H; subst; auto|].
  destruct (pattern_of_uri _) as [i| |i fmt]; try discriminate.
  - intros H; inversion H; subst; auto.
  - intros H He. bind_inv H. destruct x as [[err d] w1].
    unfold open_idx in E. bind_inv E.
    destruct (err <? 0) eqn:Herr.
    + apply Z.ltb_lt in Herr.
      destruct (open_filename_failed _ _ _ _ _ _ _ E Herr)
        as (Hsub & _ & _ & _ & Huc).
      bind_inv H. destruct x0 as [z w2]. inversion H; subst; clear H.
      unfold flccat_close in E1. bind_inv E1. destruct x0 as [z' w3].
      inversion E1; subst; clear E1.
      apply ffurl_close_done in E2.
      destruct E2 as [(_ & _ & ->)|(c0 & Hc0 & Hlive & _)]; [exact Hsub|].
      rewrite Hc0 in Huc. congruence.
    + inversion H; subst. apply Z.ltb_ge in Herr. lia.
Qed.

End Navigation.

Section Reader.

Context {A : Accessor}.

(** The values [progress] returns. *)
Lemma progress_result (direction : Z) (data : flccat_data) (w : world)
  (r : Z) (data' : flccat_data) (w' : world) :
  progress direction data w = Done (r, data', w') -> r = 1 \/ r = 0 \/ r < 0.
Proof.
  unfold progress. intros H.
  destruct (negb ((direction =? 1) || (direction =? -1))); [discriminate|].
  bind_inv H.
  destruct (file_exist_filename x w) as [found w1].
  destruct found; [|inversion H; auto].
  bind_inv H. destruct x0 as [size_first w2].
  bind_inv H. destruct x0 as [err w3].
  destruct (err <? 0) eqn:Herr;
    [inversion H; subst; apply Z.ltb_lt in Herr; auto|].
  bind_inv H. bind_inv H. destruct x1 as [[e d1] w4].
  destruct (e <? 0) eqn:He;
    [inversion H; subst; apply Z.ltb_lt in He; auto|].
  bind_inv H. destruct x1 as [sk w5].
  destruct (sk <? 0) eqn:Hsk; inversion H; subst; auto.
  apply Z.ltb_lt in Hsk. auto.
Qed.

(** One pass of the read loop whose read fails: the count, or the error
    when nothing was counted. *)
Lemma read_loop_read_error (fuel : nat) (size total : Z) (buf : list Z)
  (data : flccat_data) (w : world) (result : Z) (bytes : list Z) (w1 : world) :
  0 < size ->
  ffurl_read (uc (current data)) size w = Done (result, bytes, w1) ->
  result < 0 ->
  read_loop (S fuel) size total buf data w
  = Done ((if total =? 0 then result else total), buf, data, w1).
Proof.
  intros Hsize Hread Hres. cbn [read_loop].
  replace (size >? 0) with true
    by (symmetry; rewrite Z.gtb_ltb; apply Z.ltb_lt; exact Hsize).
  rewrite Hread. cbn [bind].
  replace (result <? 0) with true by (symmetry; apply Z.ltb_lt; exact Hres).
  reflexivity.
Qed.

(** C2 (the code departs from it): in a pass of the read loop whose read
    is short and whose transition fails, the value returned is the error,
    whatever [total] has counted so far; the bytes of this pass are in the
    buffer. *)
Theorem read_loop_transition_error (fuel : nat) (size total : Z) (buf : list Z)
  (data : flccat_data) (w : world) (result : Z) (bytes : list Z) (w1 : world)
  (p : Z) (data' : flccat_data) (w2 : world) :
  0 < size ->
  ffurl_read (uc (current data)) size w = Done (result, bytes, w1) ->
  0 <= result < size ->
  go_forward data w1 = Done (p, data', w2) -> to_int p < 0 ->
  read_loop (S fuel) size total buf data w
  = Done (to_int p, (buf ++ bytes)%list, data', w2).
Proof.
  intros Hsize Hread Hres Hgo Hp. cbn [read_loop].
  replace (size >? 0) with true
    by (symmetry; rewrite Z.gtb_ltb; apply Z.ltb_lt; exact Hsize).
  rewrite Hread. cbn [bind].
  replace (result <? 0) with false by (symmetry; apply Z.ltb_ge; lia).
  replace (result <? size) with true by (symmetry; apply Z.ltb_lt; lia).
  rewrite orb_true_r, Hgo. cbn [bind].
  replace (to_int p <? 0) with true by (symmetry; apply Z.ltb_lt; exact Hp).
  reflexivity.
Qed.

(** C1 (the code departs from it): in a pass of the read loop whose read
    is short and whose [go_forward] returns 0, the call does not return:
    the current segment is rewound and the loop goes on for the bytes that
    are still missing. *)
Theorem read_loop_not_switched (fuel : nat) (size total : Z) (buf : list Z)
  (data : flccat_data) (w : world) (result : Z) (bytes : list Z) (w1 : world)
  (data' : flccat_data) (w2 : world) (a : Z) (w3 : world) :
  0 < size ->
  ffurl_read (uc (current data)) size w = Done (result, bytes, w1) ->
  0 <= result < size ->
  go_forward data w1 = Done (0, data', w2) ->
  activate_current data' w2 = Done (a, w3) -> 0 <= to_int a ->
  read_loop (S fuel) size total buf data w
  = read_loop fuel (sub32 size result) (add32 total result)
      (buf ++ bytes)%list data' w3.
Proof.
  intros Hsize Hread Hres Hgo Hact Ha. cbn [read_loop].
  replace (size >? 0) with true
    by (symmetry; rewrite Z.gtb_ltb; apply Z.ltb_lt; exact Hsize).
  rewrite Hread. cbn [bind].
  replace (result <? 0) with false by (symmetry; apply Z.ltb_ge; lia).
  replace (result <? size) with true by (symmetry; apply Z.ltb_lt; lia).
  rewrite orb_true_r, Hgo. cbn [bind]. change (to_int 0 <? 0) with false.
  cbv iota. rewrite Hact. cbn [bind].
  replace (to_int a <? 0) with false by (symmetry; apply Z.ltb_ge; exact Ha).
  reflexivity.
Qed.

End Reader.

Section SeekTranslation.

Context {A : Accessor}.

Lemma drain_forward_drains (data : flccat_data) (w : world) (n : nat) (p : Z)
  (data' : flccat_data) (w' : world) :
  drains data w n p data' w' ->
  forall fuel, (n < fuel)%nat -> drain_forward fuel data w = Done (p, data', w').
Proof.
  induction 1 as [data w p data' w' Hgo Hp
                 |data w p data1 w1 n r data' w' Hgo Hp _ IH];
    intros fuel Hfuel; (destruct fuel as [|fuel]; [lia|]); simpl; rewrite Hgo; simpl.
  - replace (p >? 0) with false; [reflexivity|].
    symmetry. rewrite Z.gtb_ltb. apply Z.ltb_ge. exact Hp.
  - replace (p >? 0) with true.
    + apply IH. lia.
    + symmetry. rewrite Z.gtb_ltb. apply Z.ltb_lt. exact Hp.
Qed.

(** C6: a [SEEK_END] request calls [go_forward] until it returns a value
    that is not positive; an error is returned at once; on 0 the segment
    reached is repositioned to its start, by [ffurl_seek] to 0 from
    [SEEK_SET] on its context (an error of that seek is returned), and
    the result is that of [seek_relative] on the size of that segment plus
    [pos], in the world that seek leaves. *)
Theorem flccat_seek_end_drains (fuel : nat) (pos : Z)
  (data : flccat_data) (w : world) (n : nat) (p : Z)
  (data1 : flccat_data) (w1 : world) :
  drains data w n p data1 w1 -> (n < fuel)%nat ->
  p <= 0 /\
  flccat_seek fuel pos SEEK_END data w =
    if p <? 0 then Done (p, data1, w1)
    else
      '(a, w2) <- ffurl_seek (uc (current data1)) 0 SEEK_SET w1 ;;
      if a <? 0 then Done (a, data1, w2)
      else seek_relative fuel (add64 (size (current data1)) pos) data1 w2.
Proof.
  intros Hrun Hfuel. split.
  - clear Hfuel. induction Hrun; assumption.
  - unfold flccat_seek. simpl.
    rewrite (drain_forward_drains _ _ _ _ _ _ Hrun fuel Hfuel). reflexivity.
Qed.

(** C7 (the code departs from it): in a turn of the forward loop of
    [seek_relative] that switches, what is taken off [pos] is the size of
    the segment left converted to [int], which is not that size when it
    is above [INT_MAX]. *)
Theorem seek_forward_takes_int_size (fuel : nat) (offset pos : Z)
  (data : flccat_data) (w : world) (data' : flccat_data) (w' : world) :
  (add64 offset pos >? size (current data)) = true ->
  go_forward data w = Done (1, data', w') ->
  seek_forward (S fuel) offset pos data w
  = seek_forward fuel offset (sub64 pos (to_int (size (current data)))) data' w'
  /\ (INT_MAX < size (current data) ->
      to_int (size (current data)) <> size (current data)).
Proof.
  intros Hcond Hgo. split.
  - simpl. rewrite Hcond, Hgo. reflexivity.
  - intros Hbig Heq. pose proof (to_int_range (size (current data))) as Hr.
    unfold in_int in Hr. lia.
Qed.

(** A seek that is answered inside the current segment: both loops of
    [seek_relative] are skipped. *)
Lemma seek_relative_inside (fuel : nat) (pos : Z) (data : flccat_data)
  (w : world) (offset : Z) (w1 : world) (o2 : Z) (w2 : world) :
  ffurl_seek (uc (current data)) 0 SEEK_CUR w = Done (offset, w1) ->
  0 <= add64 offset pos <= size (current data) ->
  ffurl_seek (uc (current data)) (add64 offset pos) SEEK_SET w1
    = Done (o2, w2) ->
  0 <= o2 ->
  seek_relative fuel pos data w
  = Done (add64 (segment_start data) o2, data, w2).
Proof.
  intros Hcur Hin Hset Ho2.
  assert (Eb : (add64 offset pos <? 0) = false) by (apply Z.ltb_ge; lia).
  assert (Ef : (add64 offset pos >? size (current data)) = false)
    by (rewrite Z.gtb_ltb; apply Z.ltb_ge; lia).
  assert (Hb : seek_backward fuel offset pos data w1
               = Done (Fallthrough pos, data, w1))
    by (destruct fuel; cbn [seek_backward]; now rewrite Eb).
  assert (Hf : seek_forward fuel offset pos data w1
               = Done (Fallthrough pos, data, w1))
    by (destruct fuel; cbn [seek_forward]; now rewrite Ef).
  unfold seek_relative. rewrite Hcur. cbn [bind]. rewrite Hb. cbn [bind].
  rewrite Hf. cbn [bind]. rewrite Hset. cbn [bind].
  now replace (o2 <? 0) with false by (symmetry; apply Z.ltb_ge; exact Ho2).
Qed.

(** C9: [flccat_open] leaves [segment_start] at 0 for the seed.  A
    backward transition takes the size measured for the segment entered,
    which is not negative, off [segment_start]: unless that subtraction
    leaves the [int64_t] range, [segment_start] does not grow, and it gets
    smaller exactly when the segment entered is not empty.  A seek that
    is then answered inside the segment entered returns the new
    [segment_start] plus the local offset reached: without overflow, the
    old [segment_start] less the size of the segment plus that offset,
    which is negative when the transition started at or below the start
    of the seed and the offset is below the size. *)
Theorem segment_start_anchored_at_seed :
  (forall uri flags w e data w',
     flccat_open uri flags w = Done (e, data, w') -> segment_start data = 0) /\
  (forall data w data' w',
     go_backward data w = Done (1, data', w') ->
     0 <= size (current data') /\
     segment_start data' = sub64 (segment_start data) (size (current data')) /\
     (in_int64 (segment_start data - size (current data')) ->
      segment_start data' = segment_start data - size (current data') /\
      segment_start data' <= segment_start data /\
      (segment_start data' < segment_start data <-> 0 < size (current data')))) /\
  (forall fuel pos data w data' w' offset w1 o2 w2,
     go_backward data w = Done (1, data', w') ->
     ffurl_seek (uc (current data')) 0 SEEK_CUR w' = Done (offset, w1) ->
     0 <= add64 offset pos <= size (current data') ->
     ffurl_seek (uc (current data')) (add64 offset pos) SEEK_SET w1
       = Done (o2, w2) ->
     0 <= o2 ->
     flccat_seek fuel pos SEEK_CUR data' w'
       = Done (add64 (segment_start data') o2, data', w2) /\
     (in_int64 (segment_start data - size (current data')) ->
      in_int64 (segment_start data - size (current data') + o2) ->
      add64 (segment_start data') o2
        = segment_start data - size (current data') + o2 /\
      (segment_start data <= 0 -> o2 < size (current data') ->
       add64 (segment_start data') o2 < 0))).
Proof.
  assert (Hback : forall data w data' w',
    go_backward data w = Done (1, data', w') ->
    0 <= size (current data') /\
    segment_start data' = sub64 (segment_start data) (size (current data'))).
  { intros data w data' w' H. unfold go_backward in H.
    destruct (progress_switched _ _ _ _ _ H)
      as (_ & Hsz & _ & fn & w1 & sf & w2 & _ & _ & _ & Hst).
    change (-1 >? 0) with false in Hst. split; assumption. }
  split; [|split].
  - intros uri flags w e data w'. unfold flccat_open.
    destruct (String.eqb _ _); [intros H; now inversion H|].
    destruct (pattern_of_uri _) as [i| |i fmt]; try discriminate.
    + intros H; now inversion H.
    + intros H. bind_inv H. destruct x as [[err d] w1].
      unfold open_idx in E. bind_inv E.
      assert (Hst : segment_start d = 0)
        by now destruct (open_filename_frame _ _ _ _ _ _ _ E) as (_ & -> & _).
      destruct (err <? 0).
      * bind_inv H. destruct x0. inversion H; subst. exact Hst.
      * inversion H; subst. exact Hst.
  - intros data w data' w' H.
    destruct (Hback _ _ _ _ H) as [Hsz Hst].
    split; [exact Hsz|]. split; [exact Hst|].
    intros Hrange. rewrite Hst. unfold sub64. rewrite to_int64_small by exact Hrange.
    lia.
  - intros fuel pos data w data' w' offset w1 o2 w2 H Hcur Hin Hset Ho2.
    destruct (Hback _ _ _ _ H) as [Hsz Hst].
    split.
    + unfold flccat_seek.
      change (SEEK_CUR =? SEEK_END) with false.
      change (SEEK_CUR =? SEEK_CUR) with true. cbv iota.
      exact (seek_relative_inside fuel pos data' w' offset w1 o2 w2
               Hcur Hin Hset Ho2).
    + intros R1 R2. rewrite Hst. unfold sub64.
      rewrite (to_int64_small _ R1). unfold add64.
      rewrite (to_int64_small _ R2). split; [reflexivity | lia].
Qed.

End SeekTranslation.

(** ** The claims on concrete streams *)

Module Examples.
Import FileWorld FileWorldFacts Scenarios.

(** The streams of [Scenarios] are what [flccat_open] produces. *)
Lemma opened_by_flccat_open :
  flccat_open "flccat:seg2" 0 (quiet [("seg1", counting 4); ("seg2", counting 3)])
  = Done (0, opened 2 3, two_segments "seg2").
Proof. reflexivity. Qed.

Lemma streams_by_flccat_open :
  flccat_open "flccat:seg1" 0 (quiet [("seg1", counting 2)])
    = Done (0, opened 1 2, last_segment 2) /\
  flccat_open "flccat:seg1" 0
    (quiet [("seg1", counting 2147483648); ("seg2", counting 100)])
    = Done (0, opened 1 2147483648, huge_segment) /\
  flccat_open "flccat:seg1" 0
    {| files := files (three_segments 12); ctxs := [];
       env := (repeat EvIdle 14 ++ [EvFail])%list |}
    = Done (0, opened 1 2, three_segments 12).
Proof. repeat split. Qed.

Lemma progress_open_error_witness :
  progress (-1) (opened 2 3) vanishing
    = Done (AVERROR ENOENT, set_uc (opened 2 3) None, vanished)
  /\ AVERROR ENOENT <> 0.
Proof.
  eapply (progress_open_error_propagates (-1) (opened 2 3) vanishing
            "seg1" _ 3 _ 0 _ 0).
  - right. reflexivity.
  - reflexivity.
  - reflexivity.
  - reflexivity.
  - reflexivity.
  - lia.
  - reflexivity.
  - reflexivity.
  - reflexivity.
Defined.

Lemma progress_open_failure_witness :
  progress (-1) (opened 2 3) vanishing
    = Done (AVERROR ENOENT, set_uc (opened 2 3) None, vanished)
  /\ acc_live O vanishing = true
  /\ (forall c', acc_live c' vanished = false)
  /\ idx (set_uc (opened 2 3) None) = idx (opened 2 3)
  /\ segment_start (set_uc (opened 2 3) None) = segment_start (opened 2 3)
  /\ filename_fmt (set_uc (opened 2 3) None) = filename_fmt (opened 2 3).
Proof.
  eapply (progress_open_failure_not_restored (-1) (opened 2 3) vanishing O
            "seg1" _ 3 _ 0 _ 0).
  - right. reflexivity.
  - reflexivity.
  - intros [|[|c']] H; [reflexivity | discriminate H | discriminate H].
  - reflexivity.
  - reflexivity.
  - reflexivity.
  - reflexivity.
  - lia.
  - reflexivity.
  - reflexivity.
  - reflexivity.
Defined.

Lemma segment_start_anchored_witness :
  segment_start (opened 2 3) = 0 /\
  (0 <= size (current (moved 1 4 (-4))) /\
   segment_start (moved 1 4 (-4))
     = sub64 (segment_start (opened 2 3)) (size (current (moved 1 4 (-4)))) /\
   (in_int64 (segment_start (opened 2 3) - size (current (moved 1 4 (-4)))) ->
    segment_start (moved 1 4 (-4))
      = segment_start (opened 2 3) - size (current (moved 1 4 (-4))) /\
    segment_start (moved 1 4 (-4)) <= segment_start (opened 2 3) /\
    (segment_start (moved 1 4 (-4)) < segment_start (opened 2 3)
     <-> 0 < size (current (moved 1 4 (-4)))))) /\
  (flccat_seek 1 1 SEEK_CUR (moved 1 4 (-4)) (two_segments_moved "seg2" "seg1" 0)
     = Done (add64 (segment_start (moved 1 4 (-4))) 1, moved 1 4 (-4),
             two_segments_moved "seg2" "seg1" 1) /\
   (in_int64 (segment_start (opened 2 3) - size (current (moved 1 4 (-4)))) ->
    in_int64 (segment_start (opened 2 3) - size (current (moved 1 4 (-4))) + 1) ->
    add64 (segment_start (moved 1 4 (-4))) 1
      = segment_start (opened 2 3) - size (current (moved 1 4 (-4))) + 1 /\
    (segment_start (opened 2 3) <= 0 -> 1 < size (current (moved 1 4 (-4))) ->
     add64 (segment_start (moved 1 4 (-4))) 1 < 0))).
Proof.
  split; [|split].
  - exact (proj1 segment_start_anchored_at_seed "flccat:seg2" 0
             (quiet [("seg1", counting 4); ("seg2", counting 3)])
             0 (opened 2 3) (two_segments "seg2") eq_refl).
  - exact (proj1 (proj2 segment_start_anchored_at_seed) (opened 2 3)
             (two_segments "seg2") (moved 1 4 (-4))
             (two_segments_moved "seg2" "seg1" 0) eq_refl).
  - apply (proj2 (proj2 segment_start_anchored_at_seed) 1%nat 1 (opened 2 3)
             (two_segments "seg2") (moved 1 4 (-4))
             (two_segments_moved "seg2" "seg1" 0)
             0 (two_segments_moved "seg2" "seg1" 0)
             1 (two_segments_moved "seg2" "seg1" 1)).
    + reflexivity.
    + reflexivity.
    + vm_compute. split; discriminate.
    + reflexivity.
    + lia.
Defined.

(** C9, as stated, fails: the seed is segment 1 and segment 0 is empty;
    the backward transition succeeds and [segment_start] is 0, not
    negative, and so is the offset that a seek returns afterwards. *)
Lemma backward_into_empty_segment_not_negative :
  go_backward (opened 1 4) empty_predecessor
    = Done (1, moved 0 0 0,
            {| files := [("seg0", counting 0); ("seg1", counting 4)];
               ctxs := [released "seg1" 0; fresh "seg0"];
               env := [] |})
  /\ ~ segment_start (moved 0 0 0) < 0
  /\ flccat_seek 1 0 SEEK_CUR (moved 0 0 0)
       {| files := [("seg0", counting 0); ("seg1", counting 4)];
          ctxs := [released "seg1" 0; fresh "seg0"];
          env := [] |}
     = Done (0, moved 0 0 0,
             {| files := [("seg0", counting 0); ("seg1", counting 4)];
                ctxs := [released "seg1" 0; fresh "seg0"];
                env := [] |}).
Proof. split; [reflexivity | split; [simpl; lia | reflexivity]]. Qed.

Lemma flccat_seek_end_witness :
  0 <= 0 /\
  flccat_seek 1 (-3) SEEK_END (opened 1 5) (last_segment_at 5 1) =
    if 0 <? 0 then Done (0, opened 1 5, last_segment_at 5 1)
    else
      '(a, w2) <- ffurl_seek (uc (current (opened 1 5))) 0 SEEK_SET
                    (last_segment_at 5 1) ;;
      if a <? 0 then Done (a, opened 1 5, w2)
      else seek_relative 1 (add64 (size (current (opened 1 5))) (-3))
             (opened 1 5) w2.
Proof.
  apply (flccat_seek_end_drains 1 (-3) (opened 1 5) (last_segment_at 5 1)
           0 0 (opened 1 5) (last_segment_at 5 1)).
  - apply drains_stop; [reflexivity | lia].
  - lia.
Defined.

(** What that request does: the only segment has 5 bytes and its context
    is at position 1; the seek to the start comes first, so the request
    for 3 bytes before the end lands at position 2, not at 1 + 2. *)
Lemma flccat_seek_end_rewinds :
  ffurl_seek (uc (current (opened 1 5))) 0 SEEK_SET (last_segment_at 5 1)
    = Done (0, last_segment_at 5 0)
  /\ flccat_seek 1 (-3) SEEK_END (opened 1 5) (last_segment_at 5 1)
     = Done (2, opened 1 5, last_segment_at 5 2).
Proof. split; reflexivity. Qed.

(** A [SEEK_END] request from segment 1 of two: one transition, then the
    seek in segment 2. *)
Lemma flccat_seek_end_two_segments :
  drains (opened 1 4) (two_segments "seg1") 1 0
    (moved 2 3 4) (two_segments_moved "seg1" "seg2" 0).
Proof.
  apply (drains_step _ _ 1 (moved 2 3 4) (two_segments_moved "seg1" "seg2" 0)).
  - reflexivity.
  - lia.
  - apply drains_stop; [reflexivity | lia].
Qed.

(** What that [SEEK_END] request returns: one byte before the end of
    segment 2, at virtual offset 4 + 2. *)
Lemma flccat_seek_end_example :
  seek_result (flccat_seek 2 (-1) SEEK_END (opened 1 4) (two_segments "seg1"))
  = Some (6, 2, 2).
Proof. reflexivity. Qed.

Lemma read_loop_not_switched_witness :
  read_loop 5 5 0 [] (opened 1 2) (last_segment 2)
  = read_loop 4 (sub32 5 2) (add32 0 2) ([] ++ [0; 1])%list
      (opened 1 2) (last_segment_at 2 0).
Proof.
  apply (read_loop_not_switched 4 5 0 [] (opened 1 2) (last_segment 2)
           2 [0; 1] (last_segment_at 2 2)
           (opened 1 2) (last_segment_at 2 2) 0 (last_segment_at 2 0)).
  - lia.
  - reflexivity.
  - lia.
  - reflexivity.
  - reflexivity.
  - vm_compute. discriminate.
Defined.

(** One segment of 2 bytes and nothing after it: a read of 5 bytes
    returns 5, the segment read again and again. *)
Lemma read_rereads_last_segment :
  read_result (flccat_read 5 5 (opened 1 2) (last_segment 2))
  = Some (5, [0; 1; 0; 1; 0]).
Proof. reflexivity. Qed.

(** On a last segment that is empty the loop never ends. *)
Lemma read_loops_on_empty_last_segment (fuel : nat) :
  flccat_read fuel 1 (opened 1 0) (last_segment 0) = OutOfFuel.
Proof.
  unfold flccat_read. induction fuel as [|fuel IH]; [reflexivity|].
  exact IH.
Qed.

(** After [seek(0, End)] on that stream a read does not return 0 bytes. *)
Lemma read_after_seek_end :
  match flccat_seek 2 0 SEEK_END (opened 1 2) (last_segment 2) with
  | Done (r, data, w) => r = 2 /\
      read_result (flccat_read 5 5 data w) = Some (5, [0; 1; 0; 1; 0])
  | _ => False
  end.
Proof. split; reflexivity. Qed.

Lemma read_loop_transition_error_witness :
  read_loop 4 3 2 [0; 1] (moved 2 2 2) second_pass
  = Done (to_int (AVERROR EIO), ([0; 1] ++ [0; 1])%list,
          set_uc (moved 2 2 2) None, second_pass_end).
Proof.
  apply (read_loop_transition_error 3 3 2 [0; 1] (moved 2 2 2) second_pass
           2 [0; 1]
           {| files := files second_pass;
              ctxs := [released "seg1" 2;
                       {| fc_name := "seg2"; fc_pos := 2; fc_flags := 0;
                          fc_live := true |}];
              env := [EvIdle; EvIdle; EvIdle; EvFail] |}).
  - lia.
  - reflexivity.
  - lia.
  - reflexivity.
  - vm_compute. reflexivity.
Defined.

(** Three segments of 2 bytes, a read of 5 bytes.  The first pass stores 2
    bytes and switches to segment 2; the second stores 2 more and the open
    of segment 3 fails: the error is returned, not the count. *)
Lemma read_returns_transition_error_after_bytes :
  read_result (flccat_read 5 5 (opened 1 2) (three_segments 12))
  = Some (AVERROR EIO, [0; 1; 0; 1]).
Proof. reflexivity. Qed.

(** The error of a read of the segment, on the same stream, is replaced by
    the count. *)
Lemma read_returns_count_on_read_error :
  read_result (flccat_read 5 5 (opened 1 2) (three_segments 8))
  = Some (2, [0; 1]).
Proof. reflexivity. Qed.

Lemma seek_forward_takes_int_size_witness :
  seek_forward 3 0 2147483658 (opened 1 2147483648) huge_segment
  = seek_forward 2 0 (sub64 2147483658 (to_int (size (current (opened 1 2147483648)))))
      (moved 2 100 2147483648) huge_segment_left
  /\ (INT_MAX < size (current (opened 1 2147483648)) ->
      to_int (size (current (opened 1 2147483648)))
      <> size (current (opened 1 2147483648))).
Proof.
  apply (seek_forward_takes_int_size 2 0 2147483658 (opened 1 2147483648)
           huge_segment (moved 2 100 2147483648) huge_segment_left).
  - reflexivity.
  - reflexivity.
Defined.

(** Segment 1 has 2^31 bytes and segment 2 has 100.  A seek from the start
    to virtual offset 2^31 + 10 takes [to_int (2^31)], which is -2^31, off
    [pos]; the target is then past segment 2 and the seek lands on its
    last byte. *)
Lemma seek_forward_truncates_segment_size :
  to_int 2147483648 = -2147483648 /\
  seek_result (flccat_seek 3 2147483658 SEEK_CUR (opened 1 2147483648)
                 huge_segment)
  = Some (2147483747, 2, 99).
Proof. split; reflexivity. Qed.

Lemma flccat_open_size_failure_witness :
  flccat_open "flccat:seg1" 0 size_unavailable = Undefined.
Proof.
  apply (flccat_open_size_failure (A := file_accessor)
           "flccat:seg1" "seg1" 0 size_unavailable
           1 "seg%d" "seg1" 0 (Some O)
           {| files := files size_unavailable; ctxs := [fresh "seg1"];
              env := [EvFail] |}
           O (AVERROR EIO)
           {| files := files size_unavailable; ctxs := [fresh "seg1"];
              env := [] |}).
  - reflexivity.
  - reflexivity.
  - reflexivity.
  - reflexivity.
  - reflexivity.
  - lia.
  - reflexivity.
  - reflexivity.
  - vm_compute. reflexivity.
Defined.

End Examples.

(** ** The navigator keeps the virtual offsets *)

Module OffsetsFacts.
Import FileWorld FileWorldFacts Offsets.

Lemma tick_quiet (w : fsworld) : env w = [] -> tick w = (false, w).
Proof. unfold tick. now intros ->. Qed.

Lemma quiet_access (w : fsworld) (n : string) :
  env w = [] ->
  acc_access (Accessor := file_accessor) n w =
  (match find_file n (files w) with Some _ => true | None => false end, w).
Proof.
  intros Hq. simpl. unfold fw_access. rewrite (tick_quiet w Hq).
  now destruct (find_file n (files w)).
Qed.

Lemma quiet_size (w : fsworld) (c : nat) (x : fctx) (f : file) :
  env w = [] -> nth_error (ctxs w) c = Some x ->
  find_file (fc_name x) (files w) = Some f ->
  acc_size (Accessor := file_accessor) c w = (f_size f, w).
Proof.
  intros Hq Hx Hf. simpl. unfold fw_size. rewrite (tick_quiet w Hq).
  now rewrite Hx, Hf.
Qed.

Lemma quiet_close (w : fsworld) (c : nat) (x : fctx) :
  env w = [] -> nth_error (ctxs w) c = Some x ->
  acc_close (Accessor := file_accessor) c w =
  (0, with_ctx w c {| fc_name := fc_name x; fc_pos := fc_pos x;
                      fc_flags := fc_flags x; fc_live := false |}).
Proof.
  intros Hq Hx. simpl. unfold fw_close. rewrite (tick_quiet w Hq).
  now rewrite Hx.
Qed.

Lemma quiet_open (w : fsworld) (n : string) (flags : Z) (g : file) :
  env w = [] -> find_file n (files w) = Some g ->
  acc_open (Accessor := file_accessor) n flags w =
  (0, Some (List.length (ctxs w)),
   {| files := files w;
      ctxs := (ctxs w ++ [{| fc_name := n; fc_pos := 0; fc_flags := flags;
                             fc_live := true |}])%list;
      env := env w |}).
Proof.
  intros Hq Hg. simpl. unfold fw_open. rewrite (tick_quiet w Hq).
  now rewrite Hg.
Qed.

Lemma quiet_seek_start (w : fsworld) (c : nat) (x : fctx) (f : file) :
  env w = [] -> nth_error (ctxs w) c = Some x ->
  find_file (fc_name x) (files w) = Some f ->
  acc_seek (Accessor := file_accessor) c 0 SEEK_SET w =
  (0, with_ctx w c {| fc_name := fc_name x; fc_pos := 0;
                      fc_flags := fc_flags x; fc_live := fc_live x |}).
Proof.
  intros Hq Hx Hf. simpl. unfold fw_seek. rewrite (tick_quiet w Hq).
  now rewrite Hx, Hf.
Qed.

Lemma length_set_ctx (l : list fctx) (i : nat) (x : fctx) :
  List.length (set_ctx i x l) = List.length l.
Proof.
  revert i. induction l as [|y l IH]; intros [|i]; simpl; auto.
Qed.




Lemma nth_error_new_ctx (w : fsworld) (x : fctx) :
  nth_error (ctxs (with_new_ctx w x)) (List.length (ctxs w)) = Some x.
Proof.
  simpl. rewrite nth_error_app2 by lia. now rewrite Nat.sub_diag.
Qed.

Lemma quiet_open_filename (w : fsworld) (n : string) (flags : Z)
  (data : flccat_data) (g : file) :
  env w = [] -> find_file n (files w) = Some g -> 0 <= f_size g ->
  open_filename n flags data w =
  Done (0,
        set_current (set_uc data (Some (List.length (ctxs w))))
          {| uc := Some (List.length (ctxs w)); size := f_size g |},
        with_new_ctx w (just_opened n flags)).
Proof.
  intros Hq Hg Hsz. unfold open_filename.
  rewrite (quiet_open w n flags g Hq Hg).
  change (0 <? 0) with false. cbv iota.
  fold (just_opened n flags). fold (with_new_ctx w (just_opened n flags)).
  unfold update_current_size, ffurl_size, through.
  cbn [set_uc set_current current uc].
  assert (Hl : acc_live (Accessor := file_accessor) (List.length (ctxs w))
                 (with_new_ctx w (just_opened n flags)) = true).
  { cbn [acc_live file_accessor]. unfold fw_live.
    now rewrite nth_error_new_ctx. }
  rewrite Hl.
  rewrite (quiet_size (with_new_ctx w (just_opened n flags)) _
             (just_opened n flags) g Hq (nth_error_new_ctx w _) Hg).
  cbn [bind].
  replace (f_size g <? 0) with false by (symmetry; apply Z.ltb_ge; exact Hsz).
  cbn [bind]. 
  replace (f_size g <? 0) with false by (symmetry; apply Z.ltb_ge; exact Hsz).
  reflexivity.
Qed.




End OffsetsFacts.

(** ** More on the pattern parser and the file names *)

Module ParserFacts.
Import PatternFacts.

Lemma length_str_take (n : nat) (s : string) :
  String.length (str_take n s) = Nat.min n (String.length s).
Proof.
  revert s. induction n as [|n IH]; intros s; [reflexivity|].
  destruct s as [|c s]; simpl; [reflexivity | now rewrite IH].
Qed.

Lemma length_str_drop (n : nat) (s : string) :
  String.length (str_drop n s) = (String.length s - n)%nat.
Proof.
  revert s. induction n as [|n IH]; intros s; simpl; [lia|].
  destruct s as [|c s]; simpl; [reflexivity | apply IH].
Qed.

Lemma back_over_nondigits_le (uri : string) (i : nat) :
  (back_over_nondigits uri i <= i)%nat.
Proof.
  induction i as [|i IH]; simpl; [lia|].
  destruct (isdigit (char_at uri (S i))); lia.
Qed.

Lemma back_over_digits_le (uri : string) (i : nat) :
  (back_over_digits uri i <= i)%nat.
Proof.
  induction i as [|i IH]; simpl; [lia|].
  destruct (isdigit (char_at uri (S i))); lia.
Qed.

(** X1: a path of fewer than 1023 characters never makes the parser write
    past [filename_fmt]: there is no overrun, a template is at most one
    character longer than the path, and the index is an [int]. *)
Theorem pattern_of_uri_fits (uri : string) :
  (String.length uri < 1023)%nat ->
  pattern_of_uri uri <> Overrun /\
  forall i fmt, pattern_of_uri uri = Pattern i fmt ->
    (String.length fmt <= String.length uri + 1)%nat /\
    (String.length fmt < FILENAME_FMT_MAX_LENGTH)%nat /\ in_int i.
Proof.
  intros Hlen. unfold pattern_of_uri, strnlen.
  change (FILENAME_FMT_MAX_LENGTH - 1)%nat with 1023%nat.
  rewrite (Nat.min_l _ 1023) by lia.
  set (e := back_over_nondigits uri (String.length uri - 1)).
  set (b := back_over_digits uri e).
  assert (He : (e <= String.length uri - 1)%nat) by apply back_over_nondigits_le.
  assert (Hb : (b <= e)%nat) by apply back_over_digits_le.
  destruct (Nat.eqb_spec (b + 1) (e + 1)) as [Heq|Hne]; cbn [negb].
  - split; [discriminate|]. intros i fmt H. discriminate H.
  - assert (Hpos : (1 <= String.length uri)%nat).
    { destruct (String.length uri) eqn:E; [|lia]. simpl in He. lia. }
    replace (FILENAME_FMT_MAX_LENGTH <=? b + 1 + 2 + (String.length uri - (e + 1)))%nat
      with false
      by (symmetry; apply Nat.leb_gt; unfold FILENAME_FMT_MAX_LENGTH; lia).
    split; [discriminate|]. intros i fmt H. inversion H; subst; clear H.
    unfold av_strlcpy. rewrite !length_append. cbn [String.length].
    rewrite !length_str_take, length_str_drop.
    unfold FILENAME_FMT_MAX_LENGTH.
    split; [lia|]. split; [lia|]. apply to_int_range.
Qed.

Lemma pattern_of_uri_fits_witness :
  pattern_of_uri "seg0042.ts" <> Overrun /\
  forall i fmt, pattern_of_uri "seg0042.ts" = Pattern i fmt ->
    (String.length fmt <= String.length "seg0042.ts" + 1)%nat /\
    (String.length fmt < FILENAME_FMT_MAX_LENGTH)%nat /\ in_int i.
Proof. apply (pattern_of_uri_fits "seg0042.ts"). vm_compute. lia. Defined.

(** *** The scans, one step at a time *)

Lemma back_over_nondigits_at_digit (uri : string) (i : nat) :
  isdigit (char_at uri i) = true -> back_over_nondigits uri i = i.
Proof. destruct i as [|i]; simpl; [reflexivity|]. now intros ->. Qed.

Lemma back_over_digits_step (uri : string) (i : nat) :
  isdigit (char_at uri (S i)) = true ->
  back_over_digits uri (S i) = back_over_digits uri i.
Proof. simpl. now intros ->. Qed.

Lemma back_over_digits_stop (uri : string) (i : nat) :
  isdigit (char_at uri i) = false -> back_over_digits uri i = i.
Proof. destruct i as [|i]; simpl; [reflexivity|]. now intros ->. Qed.

Lemma back_over_nondigits_none (uri : string) (i : nat) :
  (forall k, (1 <= k <= i)%nat -> isdigit (char_at uri k) = false) ->
  back_over_nondigits uri i = O.
Proof.
  induction i as [|i IH]; intros H; [reflexivity|].
  simpl. rewrite (H (S i)) by lia. apply IH. intros k Hk. apply H. lia.
Qed.

Lemma char_at_cons (c : ascii) (s : string) (k : nat) :
  char_at (String c s) (S k) = char_at s k.
Proof. reflexivity. Qed.

Lemma char_at_past (s : string) (k : nat) :
  (String.length s <= k)%nat -> char_at s k = zero.
Proof.
  unfold char_at. revert k. induction s as [|c s IH]; intros k Hk.
  - now destruct k.
  - destruct k as [|k]; simpl in *; [lia|]. apply IH. lia.
Qed.

(** A path whose characters after the first are no digits has no digit
    run for the parser, whatever the first character is. *)
Lemma pattern_of_uri_no_digit (c : ascii) (rest : string) :
  str_all nondigit rest = true ->
  exists i, pattern_of_uri (String c rest) = NoDigitRun i.
Proof.
  intros H. unfold pattern_of_uri.
  assert (E : back_over_nondigits (String c rest)
                (strnlen (String c rest) (FILENAME_FMT_MAX_LENGTH - 1) - 1) = O).
  { apply back_over_nondigits_none. intros k Hk.
    destruct k as [|k]; [lia|]. rewrite char_at_cons.
    destruct (Nat.lt_ge_cases k (String.length rest)) as [Hlt|Hge].
    - pose proof (str_all_char_at _ _ _ H Hlt) as Hn. unfold nondigit in Hn.
      now apply negb_true_iff in Hn.
    - now rewrite char_at_past. }
  rewrite E. cbn [back_over_digits Nat.add Nat.eqb negb]. eauto.
Qed.

(** A prefix of exactly 1022 characters followed by a run of one digit:
    the placeholder does not fit in [filename_fmt]. *)
Lemma pattern_of_uri_overrun (p : string) (c : ascii) (s : string) :
  String.length p = 1022%nat -> ends_nondigit p = true ->
  isdigit c = true ->
  pattern_of_uri (p ++ String c s) = Overrun.
Proof.
  intros Hlen Hp Hc.
  destruct (ends_nondigit_last p Hp) as [_ Hlast].
  set (uri := p ++ String c s).
  assert (Hl : String.length uri = (String.length p + S (String.length s))%nat)
    by (subst uri; now rewrite length_append).
  assert (Hat : char_at uri (String.length p) = c).
  { subst uri. rewrite <- (Nat.add_0_r (String.length p)) at 1.
    now rewrite char_at_app_r. }
  assert (Hprev : isdigit (char_at uri (String.length p - 1)) = false).
  { subst uri. rewrite char_at_app_l by lia. exact Hlast. }
  assert (E1 : back_over_nondigits uri (String.length p) = String.length p)
    by (apply back_over_nondigits_at_digit; rewrite Hat; exact Hc).
  assert (E2 : back_over_digits uri (String.length p) = (String.length p - 1)%nat).
  { replace (String.length p) with (S (String.length p - 1)) at 1 by lia.
    rewrite back_over_digits_step.
    - apply back_over_digits_stop. exact Hprev.
    - replace (S (String.length p - 1)) with (String.length p) by lia.
      rewrite Hat. exact Hc. }
  unfold pattern_of_uri, strnlen.
  change (FILENAME_FMT_MAX_LENGTH - 1)%nat with 1023%nat.
  replace (Nat.min (String.length uri) 1023) with (S (String.length p)) by lia.
  replace (S (String.length p) - 1)%nat with (String.length p) by lia.
  rewrite E1, E2.
  replace (String.length p - 1 + 1 =? String.length p + 1)%nat with false
    by (symmetry; apply Nat.eqb_neq; lia).
  cbn [negb].
  replace (FILENAME_FMT_MAX_LENGTH <=?
           String.length p - 1 + 1 + 2
           + (S (String.length p) - (String.length p + 1)))%nat with true
    by (symmetry; apply Nat.leb_le; unfold FILENAME_FMT_MAX_LENGTH; lia).
  reflexivity.
Qed.

(** *** What [%d] prints *)

Lemma print_int_nonneg (n : Z) :
  0 <= n <= INT_MAX ->
  print_int n <> EmptyString /\
  str_all isdigit (print_int n) = true /\
  strtol_digits (print_int n) 0 = n /\
  (String.length (print_int n) <= 10)%nat.
Proof.
  intros Hn. unfold print_int.
  replace (n <? 0) with false by (symmetry; apply Z.ltb_ge; lia).
  assert (Hv : 0 <= n < 10 ^ Z.of_nat 10)
    by (unfold INT_MAX in Hn; change (10 ^ Z.of_nat 10) with 10000000000; lia).
  destruct (dec_digits_value 10 n Hv) as [Hd Hval].
  split; [apply dec_digits_nonempty|]. split; [exact Hd|]. split; [exact Hval|].
  pose proof (dec_digits_length 10 n EmptyString 10 Hv ltac:(lia)) as H.
  change (String.length EmptyString) with O in H. lia.
Qed.

Lemma print_int_length (n : Z) :
  in_int n -> (String.length (print_int n) <= 11)%nat.
Proof.
  intros Hn. unfold in_int, INT_MIN, INT_MAX in Hn. unfold print_int.
  destruct (Z.ltb_spec n 0) as [Hneg|Hpos].
  - assert (Hv : 0 <= - n < 10 ^ Z.of_nat 10)
      by (change (10 ^ Z.of_nat 10) with 10000000000; lia).
    pose proof (dec_digits_length 10 (- n) EmptyString 10 Hv ltac:(lia)) as H.
    change (String.length EmptyString) with O in H.
    cbn [String.length]. lia.
  - assert (Hv : 0 <= n < 10 ^ Z.of_nat 10)
      by (change (10 ^ Z.of_nat 10) with 10000000000; lia).
    pose proof (dec_digits_length 10 n EmptyString 10 Hv ltac:(lia)) as H.
    change (String.length EmptyString) with O in H. lia.
Qed.

(** Reading back what [%d] printed: [strtol] gives the number, negative
    numbers included. *)
Lemma strtol_print_int (n : Z) : in_int n -> strtol (print_int n) = n.
Proof.
  intros Hn. unfold in_int, INT_MIN, INT_MAX in Hn. unfold print_int.
  destruct (Z.ltb_spec n 0) as [Hneg|Hpos].
  - assert (Hv : 0 <= - n < 10 ^ Z.of_nat 10)
      by (change (10 ^ Z.of_nat 10) with 10000000000; lia).
    destruct (dec_digits_value 10 (- n) Hv) as [_ Hval].
    unfold strtol. cbn [skip_space].
    change (isspace "-") with false. cbv iota.
    change (Ascii.eqb "-" "-") with true. cbv iota.
    rewrite Hval. unfold LONG_MIN. lia.
  - assert (Hv : 0 <= n < 10 ^ Z.of_nat 10)
      by (change (10 ^ Z.of_nat 10) with 10000000000; lia).
    destruct (dec_digits_value 10 n Hv) as [Hd Hval].
    pose proof (dec_digits_nonempty 9 n EmptyString) as Hne.
    destruct (dec_digits 10 n EmptyString) as [|c r] eqn:E; [congruence|].
    simpl in Hd. apply andb_true_iff in Hd. destruct Hd as [Hc _].
    unfold strtol. cbn [skip_space]. rewrite (digit_not_space c Hc).
    destruct (digit_not_sign c Hc) as [-> ->].
    rewrite Hval. unfold LONG_MAX. lia.
Qed.

Lemma print_int_injective (i j : Z) :
  in_int i -> in_int j -> print_int i = print_int j -> i = j.
Proof.
  intros Hi Hj H. rewrite <- (strtol_print_int i Hi), <- (strtol_print_int j Hj).
  now rewrite H.
Qed.

Lemma append_cancel_l (p a b : string) : p ++ a = p ++ b -> a = b.
Proof.
  induction p as [|c p IH]; simpl; [auto|]. intros H. inversion H. auto.
Qed.

Lemma append_cancel_r (a b s : string) : a ++ s = b ++ s -> a = b.
Proof.
  revert b. induction a as [|c a IH]; intros b H.
  - destruct b as [|d b]; [reflexivity|]. exfalso.
    apply (f_equal String.length) in H. simpl in H.
    rewrite length_append in H. lia.
  - destruct b as [|d b].
    + exfalso. apply (f_equal String.length) in H. simpl in H.
      rewrite length_append in H. lia.
    + simpl in H. inversion H. f_equal. now apply IH.
Qed.

(** What [filename_from_idx] makes of a template without other percent
    signs, when the name fits the buffer. *)
Lemma filename_from_idx_plain (p s : string) (n : Z) :
  str_all plain p = true -> str_all plain s = true ->
  (String.length p + String.length (print_int n) + String.length s
   < FILENAME_FMT_MAX_LENGTH)%nat ->
  filename_from_idx (p ++ "%d" ++ s) n = Some (p ++ print_int n ++ s).
Proof.
  intros Hp Hs Hlen. unfold filename_from_idx, snprintf.
  rewrite (format_int_pattern p s n Hp Hs).
  rewrite str_take_all; [reflexivity|]. rewrite !length_append. lia.
Qed.

(** X2: the file name of an index that is not negative, used as a seed,
    is parsed back into the same template and the same index. *)
Theorem filename_parses_back (p s : string) (n : Z) :
  ends_nondigit p = true -> str_all plain p = true ->
  str_all plain_nondigit s = true -> 0 <= n <= INT_MAX ->
  (String.length p + 10 + String.length s < 1023)%nat ->
  exists name,
    filename_from_idx (p ++ "%d" ++ s) n = Some name /\
    pattern_of_uri name = Pattern n (p ++ "%d" ++ s).
Proof.
  intros Hp Hpp Hs Hn Hlen.
  destruct (print_int_nonneg n Hn) as (Hne & Hd & Hv & Hl).
  exists (p ++ print_int n ++ s). split.
  - apply filename_from_idx_plain;
      [exact Hpp | now apply plain_nondigit_plain |].
    unfold FILENAME_FMT_MAX_LENGTH. lia.
  - rewrite <- Hv at 2.
    apply (pattern_of_uri_run p (print_int n) s Hp Hd Hne Hs).
    + rewrite !length_append. lia.
    + rewrite Hv. lia.
Qed.

Lemma filename_parses_back_witness :
  exists name,
    filename_from_idx ("seg_" ++ "%d" ++ ".ts") 43 = Some name /\
    pattern_of_uri name = Pattern 43 ("seg_" ++ "%d" ++ ".ts").
Proof.
  apply (filename_parses_back "seg_" ".ts" 43).
  - reflexivity.
  - reflexivity.
  - reflexivity.
  - unfold INT_MAX. lia.
  - simpl. lia.
Defined.

(** X3: two different indices of [int] range give two different file names
    (template without other percent signs, names that fit the buffer). *)
Theorem filename_from_idx_injective (p s : string) (i j : Z) :
  str_all plain p = true -> str_all plain s = true ->
  in_int i -> in_int j -> i <> j ->
  (String.length p + 11 + String.length s < FILENAME_FMT_MAX_LENGTH)%nat ->
  exists a b,
    filename_from_idx (p ++ "%d" ++ s) i = Some a /\
    filename_from_idx (p ++ "%d" ++ s) j = Some b /\
    a <> b.
Proof.
  intros Hp Hs Hi Hj Hij Hlen.
  pose proof (print_int_length i Hi) as Li.
  pose proof (print_int_length j Hj) as Lj.
  exists (p ++ print_int i ++ s), (p ++ print_int j ++ s).
  split; [apply filename_from_idx_plain; auto; lia|].
  split; [apply filename_from_idx_plain; auto; lia|].
  intros H. apply append_cancel_l, append_cancel_r in H.
  apply Hij. now apply print_int_injective.
Qed.

Lemma filename_from_idx_injective_witness :
  exists a b,
    filename_from_idx ("seg" ++ "%d" ++ ".ts") 9 = Some a /\
    filename_from_idx ("seg" ++ "%d" ++ ".ts") (-1) = Some b /\
    a <> b.
Proof.
  apply (filename_from_idx_injective "seg" ".ts" 9 (-1)).
  - reflexivity.
  - reflexivity.
  - unfold in_int, INT_MIN, INT_MAX. lia.
  - unfold in_int, INT_MIN, INT_MAX. lia.
  - lia.
  - vm_compute. lia.
Defined.

End ParserFacts.

(** ** More on the navigator, on opening and on closing *)

Section NavigatorFacts.

Context {A : Accessor}.

Lemma av_strstart_app (pfx s : string) : av_strstart (pfx ++ s) pfx = Some s.
Proof.
  induction pfx as [|c pfx IH]; simpl.
  - now destruct s.
  - now rewrite Ascii.eqb_refl.
Qed.

Lemma progress_probe_failed (direction : Z) (data : flccat_data) (w : world)
  (filename : string) (w1 : world) :
  direction = 1 \/ direction = -1 ->
  filename_from_idx (filename_fmt data) (add32 (idx data) direction)
    = Some filename ->
  file_exist_filename filename w = (false, w1) ->
  progress direction data w = Done (0, data, w1).
Proof.
  intros Hdir Hfn Hprobe. unfold progress.
  replace (negb ((direction =? 1) || (direction =? -1))) with false
    by (destruct Hdir; subst; reflexivity).
  rewrite Hfn. simpl. now rewrite Hprobe.
Qed.

Lemma progress_direction (direction : Z) (data : flccat_data) (w : world)
  (x : Z * flccat_data * world) :
  progress direction data w = Done x -> direction = 1 \/ direction = -1.
Proof.
  unfold progress.
  destruct (Z.eqb_spec direction 1) as [->|H1]; [auto|].
  destruct (Z.eqb_spec direction (-1)) as [->|H2]; [auto|].
  discriminate.
Qed.

(** X4: [progress] returns 1, 0 or a negative value; it returns 0 exactly
    when the probe of the candidate fails, and then the stream is as
    before and the probe was the only call. *)
Theorem progress_outcomes (direction : Z) (data : flccat_data) (w : world)
  (filename : string) (r : Z) (data' : flccat_data) (w' : world) :
  filename_from_idx (filename_fmt data) (add32 (idx data) direction)
    = Some filename ->
  progress direction data w = Done (r, data', w') ->
  (r = 1 \/ r = 0 \/ r < 0) /\
  (r = 0 <-> fst (file_exist_filename filename w) = false) /\
  (r = 0 -> data' = data /\ w' = snd (file_exist_filename filename w)).
Proof.
  intros Hfn H. split; [exact (progress_result _ _ _ _ _ _ H)|].
  assert (Hzero : r = 0 ->
            data' = data /\ file_exist_filename filename w = (false, w')).
  { intros ->. destruct (progress_not_switched _ _ _ _ _ H) as (-> & fn & Hfn' & Hp).
    rewrite Hfn in Hfn'. inversion Hfn'; subst fn. auto. }
  split; [split|].
  - intros Hr. destruct (Hzero Hr) as [_ ->]. reflexivity.
  - intros Hp. destruct (file_exist_filename filename w) as [found w1] eqn:E.
    simpl in Hp. subst found.
    rewrite (progress_probe_failed direction data w filename w1
               (progress_direction _ _ _ _ H) Hfn E) in H.
    now inversion H.
  - intros Hr. destruct (Hzero Hr) as [-> ->]. auto.
Qed.

(** X5: when a forward transition succeeds, [segment_start] has grown by
    what [ffurl_size] returned for the segment left, whatever that is: the
    result of the size query is not checked, and an error code is added
    like a size. *)
Theorem forward_switch_adds_size_result (data : flccat_data) (w : world)
  (filename : string) (w1 : world) (s : Z) (w2 : world)
  (data' : flccat_data) (w' : world) :
  filename_from_idx (filename_fmt data) (add32 (idx data) 1) = Some filename ->
  file_exist_filename filename w = (true, w1) ->
  ffurl_size (uc (current data)) w1 = Done (s, w2) ->
  go_forward data w = Done (1, data', w') ->
  segment_start data' = add64 (segment_start data) s /\
  idx data' = add32 (idx data) 1.
Proof.
  intros Hfn Hprobe Hsize H. unfold go_forward in H.
  destruct (progress_switched _ _ _ _ _ H)
    as (Hidx & _ & _ & fn & w1' & sf & w2' & Hfn' & Hprobe' & Hsize' & Hst).
  rewrite Hfn in Hfn'. inversion Hfn'; subst fn.
  rewrite Hprobe in Hprobe'. inversion Hprobe'; subst w1'.
  rewrite Hsize in Hsize'. inversion Hsize'; subst sf w2'.
  change (1 >? 0) with true in Hst. auto.
Qed.

Context {L : AccessorLaws A}.

Lemma open_filename_succeeded (filename : string) (flags : Z)
  (data : flccat_data) (w : world) (e : Z) (data' : flccat_data) (w' : world) :
  open_filename filename flags data w = Done (e, data', w') -> 0 <= e ->
  exists c0, uc (current data') = Some c0 /\ acc_live c0 w' = true /\
    forall c, acc_live c w' = true -> c = c0 \/ acc_live c w = true.
Proof.
  unfold open_filename.
  destruct (acc_open filename flags w) as [[err puc] w1] eqn:Hopen.
  destruct (err <? 0) eqn:Herr.
  - intros H He. inversion H; subst. apply Z.ltb_lt in Herr. lia.
  - intros H He. apply Z.ltb_ge in Herr.
    destruct (open_ok_live _ _ _ _ _ _ Hopen Herr) as (c0 & -> & Hc0 & Hothers).
    bind_inv H. destruct x as [[r cur] w2].
    apply update_current_size_done in E. destruct E as [Huc [Hsz Hr]].
    simpl in Huc, Hsz. unfold ffurl_size, through in Hsz.
    rewrite Hc0 in Hsz. inversion Hsz as [Hsize]. clear Hsz.
    destruct (r <? 0) eqn:Hneg.
    + bind_inv H. destruct x as [z w3]. inversion H; subst.
      unfold AVERROR, ENOSYS in He. lia.
    + inversion H; subst; clear H. exists c0. simpl.
      split; [exact Huc|]. split.
      * now rewrite (size_live _ _ _ _ Hsize).
      * intros c Hc. rewrite (size_live _ _ _ _ Hsize) in Hc. auto.
Qed.

(** X6: a stream that holds the only live context holds, after any call
    of [progress], every context that is live: no second segment stays
    open and none is lost.  After a switch the current context is live. *)
Theorem progress_holds_every_live_context
  (direction : Z) (data : flccat_data) (w : world) (c : context)
  (r : Z) (data' : flccat_data) (w' : world) :
  uc (current data) = Some c ->
  (forall c', acc_live c' w = true -> c' = c) ->
  progress direction data w = Done (r, data', w') ->
  (forall c1, acc_live c1 w' = true -> uc (current data') = Some c1) /\
  (r = 1 -> exists c1, uc (current data') = Some c1 /\ acc_live c1 w' = true).
Proof.
  intros Huc Honly H. unfold progress in H.
  destruct (negb ((direction =? 1) || (direction =? -1))); [discriminate|].
  bind_inv H. rename x into filename.
  destruct (file_exist_filename filename w) as [found w1] eqn:Hprobe.
  unfold file_exist_filename in Hprobe.
  destruct found.
  2: { inversion H; subst. split; [|discriminate].
       intros c1 Hc1. rewrite (access_live _ _ _ _ Hprobe) in Hc1.
       now rewrite (Honly c1 Hc1). }
  bind_inv H. destruct x as [size_first w2].
  rewrite Huc in E0. unfold ffurl_size in E0. apply through_done in E0.
  destruct E0 as (c0 & Hc0 & _ & Hsz). inversion Hc0; subst c0; clear Hc0.
  bind_inv H. destruct x as [err w3].
  unfold close_current in E0. rewrite Huc in E0.
  apply ffurl_close_done in E0.
  destruct E0 as [[Hn _]|(c0 & Hc0 & _ & Hcl)]; [discriminate|].
  inversion Hc0; subst c0; clear Hc0.
  destruct (close_live _ _ _ _ Hcl) as [Hdead Hsub3].
  assert (Hnone : forall c1, acc_live c1 w3 = true -> False).
  { intros c1 Hc1. pose proof (Hsub3 c1 Hc1) as H2.
    rewrite (size_live _ _ _ _ Hsz), (access_live _ _ _ _ Hprobe) in H2.
    rewrite (Honly c1 H2) in Hc1. congruence. }
  destruct (err <? 0) eqn:Herr.
  { inversion H; subst. split; [|intros Hr; subst; discriminate].
    intros c1 Hc1. destruct (Hnone c1 Hc1). }
  bind_inv H. rename x into flags.
  bind_inv H. destruct x as [[e d1] w4].
  destruct (e <? 0) eqn:He.
  { inversion H; subst. apply Z.ltb_lt in He.
    destruct (open_filename_failed _ _ _ _ _ _ _ E1 He) as (Hsub & _).
    split; [|intros Hr; subst; lia].
    intros c1 Hc1. destruct (Hnone c1 (Hsub c1 Hc1)). }
  apply Z.ltb_ge in He.
  destruct (open_filename_succeeded _ _ _ _ _ _ _ E1 He)
    as (c0 & Hc0 & Hlive0 & Hothers).
  bind_inv H. destruct x as [sk w5].
  match type of E2 with
  | ffurl_seek (uc (current ?d)) _ _ _ = _ => set (d5 := d) in *
  end.
  assert (Hu5 : uc (current d5) = Some c0)
    by (subst d5; destruct (direction >? 0); exact Hc0).
  rewrite Hu5 in E2. unfold ffurl_seek in E2. apply through_done in E2.
  destruct E2 as (c1 & Hc1 & _ & Hseek). inversion Hc1; subst c1; clear Hc1.
  assert (Hd : data' = d5 /\ w' = w5)
    by (destruct (sk <? 0); inversion H; auto).
  destruct Hd as [-> ->]. split.
  - intros c1 Hc1. rewrite (seek_live _ _ _ _ _ _ Hseek) in Hc1.
    destruct (Hothers c1 Hc1) as [->|Hold]; [exact Hu5|].
    destruct (Hnone c1 Hold).
  - intros _. exists c0. split; [exact Hu5|].
    now rewrite (seek_live _ _ _ _ _ _ Hseek).
Qed.

(** X7: when the close of the current segment fails, [progress] returns
    that error without opening the candidate, and the stream is left as it
    was, with a current context that has been released: closing the
    stream afterwards closes that context a second time. *)
Theorem progress_close_error
  (direction : Z) (data : flccat_data) (w : world) (c : context)
  (filename : string) (w1 : world) (size_first : Z) (w2 : world)
  (r : Z) (w3 : world) :
  direction = 1 \/ direction = -1 ->
  uc (current data) = Some c ->
  filename_from_idx (filename_fmt data) (add32 (idx data) direction)
    = Some filename ->
  file_exist_filename filename w = (true, w1) ->
  ffurl_size (uc (current data)) w1 = Done (size_first, w2) ->
  close_current data w2 = Done (r, w3) -> r < 0 ->
  progress direction data w = Done (r, data, w3) /\
  acc_live c w3 = false /\
  flccat_close data w3 = Undefined.
Proof.
  intros Hdir Huc Hfn Hprobe Hsize Hclose Hr.
  assert (Hdead : acc_live c w3 = false).
  { unfold close_current in Hclose. rewrite Huc in Hclose.
    apply ffurl_close_done in Hclose.
    destruct Hclose as [[Hn _]|(c0 & Hc0 & _ & Hcl)]; [discriminate|].
    inversion Hc0; subst c0. apply (close_live _ _ _ _ Hcl). }
  split; [|split; [exact Hdead|]].
  - unfold progress.
    replace (negb ((direction =? 1) || (direction =? -1))) with false
      by (destruct Hdir; subst; reflexivity).
    rewrite Hfn. simpl. rewrite Hprobe, Hsize. simpl. rewrite Hclose. simpl.
    replace (r <? 0) with true by (symmetry; apply Z.ltb_lt; exact Hr).
    reflexivity.
  - unfold flccat_close, ffurl_close. rewrite Huc, Hdead. reflexivity.
Qed.

(** X8: when [flccat_open] succeeds it returns 0 and leaves a stream at
    the seed: [segment_start] is 0, the index is an [int] that the
    template names a file for, the size measured is not negative, and the
    current context is live and is the only one the call has made
    live. *)
Theorem flccat_open_success (uri : string) (flags : Z) (w : world)
  (e : Z) (data : flccat_data) (w' : world) :
  flccat_open uri flags w = Done (e, data, w') -> 0 <= e ->
  e = 0 /\ segment_start data = 0 /\ 0 <= size (current data) /\
  in_int (idx data) /\
  filename_from_idx (filename_fmt data) (idx data) <> None /\
  exists c, uc (current data) = Some c /\ acc_live c w' = true /\
    forall c', acc_live c' w' = true -> c' = c \/ acc_live c' w = true.
Proof.
  unfold flccat_open.
  destruct (String.eqb _ _);
    [intros H He; inversion H; subst; unfold AVERROR, ENOENT in He; lia|].
  destruct (pattern_of_uri _) as [i| |i fmt] eqn:Hpat; try discriminate.
  - intros H He; inversion H; subst; unfold AVERROR, ENOENT in He; lia.
  - intros H He. bind_inv H. destruct x as [[err d] w1].
    unfold open_idx in E. bind_inv E. rename x into filename.
    destruct (err <? 0) eqn:Herr.
    + bind_inv H. destruct x as [z w2]. inversion H; subst.
      apply Z.ltb_lt in Herr. lia.
    + inversion H; subst; clear H.
      destruct (open_filename_ok _ _ _ _ _ _ _ E He)
        as (He0 & Hsz & Hidx & Hst & Hfmt & _).
      destruct (open_filename_succeeded _ _ _ _ _ _ _ E He) as (c & Hc & Hl & Ho).
      simpl in Hidx, Hst, Hfmt.
      split; [exact He0|]. split; [exact Hst|]. split; [exact Hsz|].
      split.
      { rewrite Hidx. unfold pattern_of_uri in Hpat.
        destruct (negb _) in Hpat; [|discriminate].
        destruct (Nat.leb _ _) in Hpat; [discriminate|].
        inversion Hpat. apply to_int_range. }
      split.
      { rewrite Hfmt, Hidx. simpl in E0.
        destruct (filename_from_idx fmt i); [discriminate | discriminate E0]. }
      exists c. auto.
Qed.

(** X9: when [flccat_open] returns an error, the stream holds a null
    pointer and no context is live that was not live before the call. *)
Theorem flccat_open_error_holds_nothing (uri : string) (flags : Z) (w : world)
  (e : Z) (data : flccat_data) (w' : world) :
  flccat_open uri flags w = Done (e, data, w') -> e < 0 ->
  uc (current data) = None /\
  forall c, acc_live c w' = true -> acc_live c w = true.
Proof.
  unfold flccat_open.
  destruct (String.eqb _ _); [intros H; inversion H; subst; auto|].
  destruct (pattern_of_uri _) as [i| |i fmt]; try discriminate.
  - intros H; inversion H; subst; auto.
  - intros H He. bind_inv H. destruct x as [[err d] w1].
    unfold open_idx in E. bind_inv E.
    destruct (err <? 0) eqn:Herr.
    + apply Z.ltb_lt in Herr.
      destruct (open_filename_failed _ _ _ _ _ _ _ E Herr)
        as (Hsub & _ & _ & _ & Huc).
      bind_inv H. destruct x0 as [z w2]. inversion H; subst; clear H.
      unfold flccat_close in E1. bind_inv E1. destruct x0 as [z' w3].
      inversion E1; subst; clear E1.
      apply ffurl_close_done in E2.
      destruct E2 as [(Hnull & _ & ->)|(c0 & Hc0 & Hlive & _)]; [auto|].
      rewrite Hc0 in Huc. congruence.
    + inversion H; subst. apply Z.ltb_ge in Herr. lia.
Qed.

Context {CL : CloseLaw A}.

(** X10: [flccat_close] returns 0 or -1; the current context is released
    and every other context is as live as it was; a second [flccat_close]
    of the same stream, whose pointer is not reset, closes a released
    context. *)
Theorem flccat_close_releases (data : flccat_data) (w : world) (c : context)
  (r : Z) (w' : world) :
  uc (current data) = Some c ->
  flccat_close data w = Done (r, w') ->
  (r = 0 \/ r = -1) /\
  acc_live c w' = false /\
  (forall c', c' <> c -> acc_live c' w' = acc_live c' w) /\
  flccat_close data w' = Undefined.
Proof.
  intros Huc H. unfold flccat_close in H. bind_inv H. destruct x as [err w1].
  inversion H; subst; clear H.
  rewrite Huc in E. apply ffurl_close_done in E.
  destruct E as [[Hn _]|(c0 & Hc0 & _ & Hcl)]; [discriminate|].
  inversion Hc0; subst c0.
  destruct (close_live _ _ _ _ Hcl) as [Hdead _].
  split; [destruct (err <? 0); auto|]. split; [exact Hdead|].
  split; [exact (close_others _ _ _ _ Hcl)|].
  unfold flccat_close, ffurl_close. rewrite Huc, Hdead. reflexivity.
Qed.

(** X11: a seed without digit after its first character is refused with
    [ENOENT] before any accessor call: the world is untouched and the
    stream holds a null pointer. *)
Theorem flccat_open_no_digit_run (c : ascii) (rest : string) (flags : Z)
  (w : world) :
  str_all nondigit rest = true ->
  exists data,
    flccat_open ("flccat:" ++ String c rest) flags w
      = Done (AVERROR ENOENT, data, w) /\
    uc (current data) = None /\ filename_fmt data = EmptyString.
Proof.
  intros H. destruct (ParserFacts.pattern_of_uri_no_digit c rest H) as [i Hi].
  unfold flccat_open. rewrite av_strstart_app.
  cbn [String.eqb]. rewrite Hi. eauto.
Qed.

(** X12: a seed whose path has a prefix of exactly 1022 characters before
    a run of one digit makes [flccat_open] write the end of the template
    past [filename_fmt], whatever follows the digit. *)
Theorem flccat_open_overrun (p : string) (c : ascii) (s : string) (flags : Z)
  (w : world) :
  String.length p = 1022%nat -> ends_nondigit p = true -> isdigit c = true ->
  flccat_open ("flccat:" ++ p ++ String c s) flags w = Undefined.
Proof.
  intros Hlen Hp Hc.
  pose proof (ParserFacts.pattern_of_uri_overrun p c s Hlen Hp Hc) as Ho.
  unfold flccat_open. rewrite av_strstart_app.
  assert (Hne : String.eqb (p ++ String c s) EmptyString = false)
    by (destruct p; [discriminate Hlen | reflexivity]).
  rewrite Hne, Ho. reflexivity.
Qed.

End NavigatorFacts.

(** ** More on the stream reader *)

Section ReaderFacts.

Context {A : Accessor} {R : ReadLaw A}.

Lemma read_loop_count (fuel : nat) :
  forall (size total : Z) (buf : list Z) (data : flccat_data) (w : world)
         (r : Z) (buf' : list Z) (data' : flccat_data) (w' : world),
  0 <= size -> 0 <= total -> total + size <= INT_MAX ->
  Z.of_nat (List.length buf) = total ->
  read_loop fuel size total buf data w = Done (r, buf', data', w') ->
  Z.of_nat (List.length buf') <= total + size /\
  (r < 0 \/
   r = Z.of_nat (List.length buf') /\ (r = total + size \/ 0 < r)).
Proof.
  induction fuel as [|fuel IH];
    intros size total buf data w r buf' data' w' Hsize Htotal Hmax Hbuf H.
  - cbn [read_loop] in H. destruct (Z.gtb_spec size 0) as [Hpos|Hle];
      [discriminate|].
    inversion H; subst. assert (size = 0) by lia. subst size.
    split; [lia|]. right. split; [reflexivity | left; lia].
  - cbn [read_loop] in H. destruct (Z.gtb_spec size 0) as [Hpos|Hle].
    2: { inversion H; subst. assert (size = 0) by lia. subst size.
         split; [lia|]. right. split; [reflexivity | left; lia]. }
    bind_inv H. destruct x as [[result bytes] w1].
    unfold ffurl_read in E. apply through_done in E.
    destruct E as (c & _ & _ & Hread).
    destruct (read_stores _ _ _ _ _ _ Hread Hpos) as [Hres Hlen].
    destruct (Z.ltb_spec result 0) as [Hneg|Hnn].
    { inversion H; subst; clear H. split; [lia|].
      destruct (Z.eqb_spec (Z.of_nat (List.length buf')) 0) as [Hz|Hnz];
        [left; exact Hneg|].
      right. split; [reflexivity | right; lia]. }
    specialize (Hlen Hnn).
    assert (Hbuf1 : Z.of_nat (List.length (buf ++ bytes)) = total + result)
      by (rewrite length_app, Nat2Z.inj_add; lia).
    assert (Hsub : sub32 size result = size - result)
      by (unfold sub32; apply to_int_small; unfold in_int, INT_MIN, INT_MAX in *; lia).
    assert (Hadd : add32 total result = total + result)
      by (unfold add32; apply to_int_small; unfold in_int, INT_MIN, INT_MAX in *; lia).
    assert (Hrec : forall d w0,
              read_loop fuel (sub32 size result) (add32 total result)
                (buf ++ bytes) d w0 = Done (r, buf', data', w') ->
              Z.of_nat (List.length buf') <= total + size /\
              (r < 0 \/
               r = Z.of_nat (List.length buf') /\ (r = total + size \/ 0 < r))).
    { intros d w0 Hrun. rewrite Hsub, Hadd in Hrun.
      destruct (IH (size - result) (total + result) (buf ++ bytes)%list d w0
                  r buf' data' w' ltac:(lia) ltac:(lia) ltac:(lia) Hbuf1 Hrun)
        as [Hb Hr].
      replace (total + result + (size - result)) with (total + size) in * by lia.
      auto. }
    destruct ((result =? 0) || (result <? size)).
    + bind_inv H. destruct x as [[p d] w2].
      destruct (Z.ltb_spec (to_int p) 0) as [Hp|Hp].
      { inversion H; subst. split; [lia | left; exact Hp]. }
      bind_inv H. destruct x as [a w3].
      destruct (Z.ltb_spec (to_int a) 0) as [Ha|Ha].
      { inversion H; subst. split; [lia | left; exact Ha]. }
      exact (Hrec _ _ H).
    + exact (Hrec _ _ H).
Qed.

(** X13: a call of [flccat_read] for a positive [size] that returns has
    stored at most [size] bytes, and returns either a negative error or
    the number of bytes it has stored, which is then positive: it never
    returns 0. *)
Theorem flccat_read_count (fuel : nat) (size : Z) (data : flccat_data)
  (w : world) (r : Z) (buf : list Z) (data' : flccat_data) (w' : world) :
  0 < size <= INT_MAX ->
  flccat_read fuel size data w = Done (r, buf, data', w') ->
  Z.of_nat (List.length buf) <= size /\
  (r < 0 \/ 0 < r <= size /\ r = Z.of_nat (List.length buf)).
Proof.
  intros Hsize H. unfold flccat_read in H.
  destruct (read_loop_count fuel size 0 [] data w r buf data' w'
              ltac:(lia) ltac:(lia) ltac:(lia) eq_refl H) as [Hb Hr].
  split; [lia|]. destruct Hr as [Hr|[Hr Hc]]; [auto|]. right. lia.
Qed.

End ReaderFacts.

(** ** The added properties on concrete streams *)

Module MoreExamples.
Import FileWorld FileWorldFacts Scenarios MoreScenarios.

Lemma length_bytes_from (f : file) (pos : Z) (n : nat) :
  List.length (bytes_from f pos n) = n.
Proof.
  revert pos. induction n as [|n IH]; intros pos; simpl; [reflexivity|].
  now rewrite IH.
Qed.

Lemma fw_read_stores c n w r bs w' :
  fw_read c n w = (r, bs, w') -> 0 < n ->
  r <= n /\ (0 <= r -> Z.of_nat (List.length bs) = r).
Proof.
  unfold fw_read. destruct (tick w) as [failed w0]. intros H Hn.
  destruct failed;
    [inversion H; subst; unfold AVERROR, EIO; split; lia|].
  destruct (nth_error (ctxs w0) c) as [x|];
    [|inversion H; subst; unfold AVERROR, EINVAL; split; lia].
  destruct (find_file (fc_name x) (files w0)) as [f|];
    [|inversion H; subst; unfold AVERROR, EIO; split; lia].
  inversion H; subst; clear H. split; [lia|].
  intros _. rewrite length_bytes_from. lia.
Qed.

#[export] Instance file_read_law : ReadLaw file_accessor.
Proof. constructor. exact fw_read_stores. Defined.

Lemma fw_close_others c0 w r w' :
  fw_close c0 w = (r, w') ->
  forall c, c <> c0 -> fw_live c w' = fw_live c w.
Proof.
  unfold fw_close. ticked w. intros H c Hc. inversion H; subst; clear H.
  rewrite <- Etick.
  destruct (nth_error (ctxs w0) c0) as [x|] eqn:Hx; [|reflexivity].
  rewrite (live_with_ctx w0 c0 x _ c Hx).
  destruct (Nat.eqb c0 c) eqn:En; [|reflexivity].
  apply Nat.eqb_eq in En. congruence.
Qed.

#[export] Instance file_close_law : CloseLaw file_accessor.
Proof. constructor. exact fw_close_others. Defined.

Lemma progress_outcomes_witness :
  (1 = 1 \/ 1 = 0 \/ 1 < 0) /\
  (1 = 0 <-> fst (file_exist_filename "seg2" (two_segments "seg1")) = false) /\
  (1 = 0 -> moved 2 3 4 = opened 1 4 /\
            two_segments_moved "seg1" "seg2" 0
            = snd (file_exist_filename "seg2" (two_segments "seg1"))).
Proof.
  apply (progress_outcomes 1 (opened 1 4) (two_segments "seg1") "seg2"
           1 (moved 2 3 4) (two_segments_moved "seg1" "seg2" 0)).
  - reflexivity.
  - reflexivity.
Defined.

Lemma forward_switch_adds_size_result_witness :
  segment_start (moved 2 3 (-5)) = add64 (segment_start (opened 1 4)) (AVERROR EIO)
  /\ idx (moved 2 3 (-5)) = add32 (idx (opened 1 4)) 1.
Proof.
  apply (forward_switch_adds_size_result (opened 1 4)
           (scripted [EvIdle; EvFail]) "seg2" (scripted [EvFail])
           (AVERROR EIO) (scripted [])
           (moved 2 3 (-5)) (two_segments_moved "seg1" "seg2" 0)).
  - reflexivity.
  - reflexivity.
  - reflexivity.
  - reflexivity.
Defined.

Lemma progress_holds_every_live_context_witness :
  (forall c1, acc_live c1 (two_segments_moved "seg1" "seg2" 0) = true ->
     uc (current (moved 2 3 4)) = Some c1) /\
  (1 = 1 -> exists c1, uc (current (moved 2 3 4)) = Some c1 /\
     acc_live c1 (two_segments_moved "seg1" "seg2" 0) = true).
Proof.
  apply (progress_holds_every_live_context 1 (opened 1 4)
           (two_segments "seg1") O 1).
  - reflexivity.
  - intros [|[|c']] H; [reflexivity | discriminate H | discriminate H].
  - reflexivity.
Defined.

Lemma progress_close_error_witness :
  progress 1 (opened 1 4) (scripted [EvIdle; EvIdle; EvFail])
    = Done (AVERROR EIO, opened 1 4,
            {| files := files (scripted []); ctxs := [released "seg1" 0];
               env := [] |})
  /\ acc_live O {| files := files (scripted []); ctxs := [released "seg1" 0];
                   env := [] |} = false
  /\ flccat_close (opened 1 4)
       {| files := files (scripted []); ctxs := [released "seg1" 0];
          env := [] |} = Undefined.
Proof.
  apply (progress_close_error 1 (opened 1 4)
           (scripted [EvIdle; EvIdle; EvFail]) O "seg2"
           (scripted [EvIdle; EvFail]) 4 (scripted [EvFail])).
  - left. reflexivity.
  - reflexivity.
  - reflexivity.
  - reflexivity.
  - reflexivity.
  - reflexivity.
  - unfold AVERROR, EIO. lia.
Defined.

Lemma flccat_open_success_witness :
  0 = 0 /\ segment_start (opened 2 3) = 0 /\ 0 <= size (current (opened 2 3)) /\
  in_int (idx (opened 2 3)) /\
  filename_from_idx (filename_fmt (opened 2 3)) (idx (opened 2 3)) <> None /\
  exists c, uc (current (opened 2 3)) = Some c /\
    acc_live c (two_segments "seg2") = true /\
    forall c', acc_live c' (two_segments "seg2") = true ->
      c' = c \/ acc_live c'
                  (quiet [("seg1", counting 4); ("seg2", counting 3)]) = true.
Proof.
  apply (flccat_open_success (A := file_accessor) "flccat:seg2" 0
           (quiet [("seg1", counting 4); ("seg2", counting 3)])).
  - reflexivity.
  - lia.
Defined.

Lemma flccat_open_error_holds_nothing_witness :
  uc (current (unopened 7 "seg%d")) = None /\
  forall c, acc_live c only_seg1 = true -> acc_live c only_seg1 = true.
Proof.
  apply (flccat_open_error_holds_nothing (A := file_accessor)
           "flccat:seg7" 0 only_seg1
           (AVERROR ENOENT)).
  - reflexivity.
  - unfold AVERROR, ENOENT. lia.
Defined.

Lemma flccat_close_releases_witness :
  (0 = 0 \/ 0 = -1) /\
  acc_live 1%nat {| files := files (two_segments "seg2");
                    ctxs := [fresh "seg1"; released "seg2" 0];
                    env := [] |} = false /\
  (forall c', c' <> 1%nat ->
     acc_live c' {| files := files (two_segments "seg2");
                    ctxs := [fresh "seg1"; released "seg2" 0];
                    env := [] |}
     = acc_live c' {| files := files (two_segments "seg2");
                      ctxs := [fresh "seg1"; fresh "seg2"];
                      env := [] |}) /\
  flccat_close (moved 2 3 0)
    {| files := files (two_segments "seg2");
       ctxs := [fresh "seg1"; released "seg2" 0];
       env := [] |} = Undefined.
Proof.
  apply (flccat_close_releases (moved 2 3 0)
           {| files := files (two_segments "seg2");
              ctxs := [fresh "seg1"; fresh "seg2"];
              env := [] |} 1%nat 0).
  - reflexivity.
  - reflexivity.
Defined.

Lemma flccat_open_no_digit_run_witness :
  exists data,
    flccat_open ("flccat:" ++ String "a" "bc") 0 only_seg1
      = Done (AVERROR ENOENT, data, only_seg1) /\
    uc (current data) = None /\ filename_fmt data = EmptyString.
Proof.
  apply (flccat_open_no_digit_run (A := file_accessor) "a" "bc" 0 only_seg1).
  reflexivity.
Defined.

Lemma flccat_open_overrun_witness :
  flccat_open ("flccat:" ++ str_repeat "a" 1022 ++ String "7" ".ts") 0 only_seg1
  = Undefined.
Proof.
  apply (flccat_open_overrun (A := file_accessor) (str_repeat "a" 1022) "7" ".ts"
           0 only_seg1).
  - vm_compute. reflexivity.
  - vm_compute. reflexivity.
  - reflexivity.
Defined.

Lemma flccat_read_count_witness :
  Z.of_nat (List.length [0; 1; 0; 1; 0]) <= 5 /\
  (5 < 0 \/ 0 < 5 <= 5 /\ 5 = Z.of_nat (List.length [0; 1; 0; 1; 0])).
Proof.
  apply (flccat_read_count 5 5 (opened 1 2) (last_segment 2) 5
           [0; 1; 0; 1; 0] (opened 1 2) (last_segment_at 2 1)).
  - unfold INT_MAX. lia.
  - reflexivity.
Defined.

End MoreExamples.

(** ** Reads and seeks over files *)

Module StreamFacts.
Import FileWorld FileWorldFacts Offsets OffsetsFacts Streams.

Lemma stands_live (w : fsworld) (c : nat) (name : string) (pos : Z) :
  stands w c name pos -> acc_live (Accessor := file_accessor) c w = true.
Proof.
  intros (_ & x & Hx & _ & _ & Hl). simpl. unfold fw_live. now rewrite Hx.
Qed.

Lemma stands_moved (w : fsworld) (c : nat) (x : fctx) (pos : Z) :
  env w = [] -> nth_error (ctxs w) c = Some x -> fc_live x = true ->
  stands (with_ctx w c {| fc_name := fc_name x; fc_pos := pos;
                          fc_flags := fc_flags x; fc_live := fc_live x |})
    c (fc_name x) pos.
Proof.
  intros Hq Hx Hl. split; [exact Hq|].
  eexists. cbn [with_ctx ctxs]. rewrite nth_error_set_ctx, Nat.eqb_refl, Hx.
  split; [reflexivity|]. cbn. auto.
Qed.

Lemma positioned_moved (data : flccat_data) (w : fsworld) (f : file)
  (pos pos' : Z) (c : nat) (x : fctx) :
  positioned data w f pos ->
  uc (current data) = Some c -> nth_error (ctxs w) c = Some x ->
  positioned data
    (with_ctx w c {| fc_name := fc_name x; fc_pos := pos';
                     fc_flags := fc_flags x; fc_live := fc_live x |})
    f pos'.
Proof.
  intros [(c0 & name & Huc & Hst & Hfn & Hf) Hsz Hnn] Hc Hx.
  rewrite Hc in Huc. inversion Huc; subst c0.
  destruct Hst as (Hq & x0 & Hx0 & Hname & Hpos & Hl).
  rewrite Hx in Hx0. inversion Hx0; subst x0.
  constructor; [|exact Hsz | exact Hnn].
  exists c, name. split; [exact Hc|]. split; [|split; [exact Hfn | exact Hf]].
  rewrite <- Hname. apply stands_moved; assumption.
Qed.

(** A seek of the current context, by the three origins. *)
Lemma run_seek (data : flccat_data) (w : fsworld) (f : file) (pos p whence : Z) :
  positioned data w f pos ->
  whence = SEEK_SET \/ whence = SEEK_CUR \/ whence = SEEK_END ->
  let target :=
    (if whence =? SEEK_SET then 0
     else if whence =? SEEK_CUR then pos else f_size f) + p in
  0 <= target ->
  exists w',
    ffurl_seek (uc (current data)) p whence w = Done (target, w') /\
    positioned data w' f target /\ files w' = files w.
Proof.
  intros Hpos Hwh target Ht.
  pose proof Hpos as [(c & name & Huc & Hst & Hfn & Hf) Hsz Hnn].
  pose proof (stands_live _ _ _ _ Hst) as Hl.
  destruct Hst as (Hq & x & Hx & Hname & Hp & Hlx).
  rewrite Huc. unfold ffurl_seek, through. rewrite Hl.
  cbn [acc_seek file_accessor]. unfold fw_seek. rewrite (tick_quiet w Hq).
  rewrite Hx, Hname, Hf.
  assert (Hb : (if whence =? SEEK_SET then Some 0
                else if whence =? SEEK_CUR then Some (fc_pos x)
                else if whence =? SEEK_END then Some (f_size f) else None)
               = Some (target - p)).
  { subst target. rewrite Hp.
    destruct Hwh as [->|[->| ->]]; cbn; f_equal; lia. }
  rewrite Hb. replace (target - p + p) with target by lia.
  replace (target <? 0) with false by (symmetry; apply Z.ltb_ge; exact Ht).
  eexists. split; [reflexivity|]. split; [|reflexivity].
  rewrite <- Hname at 1. now apply positioned_moved with (pos := pos).
Qed.

(** A read of the current context: what is left of the file, up to [n]. *)
Lemma run_read (data : flccat_data) (w : fsworld) (f : file) (pos n : Z) :
  positioned data w f pos ->
  let k := Z.max 0 (Z.min n (f_size f - pos)) in
  exists w',
    ffurl_read (uc (current data)) n w
      = Done (k, bytes_from f pos (Z.to_nat k), w') /\
    positioned data w' f (pos + k) /\ files w' = files w.
Proof.
  intros Hpos k.
  pose proof Hpos as [(c & name & Huc & Hst & Hfn & Hf) Hsz Hnn].
  pose proof (stands_live _ _ _ _ Hst) as Hl.
  destruct Hst as (Hq & x & Hx & Hname & Hp & Hlx).
  rewrite Huc. unfold ffurl_read, through. rewrite Hl.
  cbn [acc_read file_accessor]. unfold fw_read. rewrite (tick_quiet w Hq).
  rewrite Hx, Hname, Hf, Hp. fold k.
  eexists. split; [reflexivity|]. split; [|reflexivity].
  rewrite <- Hname at 1. now apply positioned_moved with (pos := pos).
Qed.

Lemma run_size (data : flccat_data) (w : fsworld) (f : file) (pos : Z) :
  positioned data w f pos ->
  ffurl_size (uc (current data)) w = Done (f_size f, w).
Proof.
  intros [(c & name & Huc & Hst & Hfn & Hf) Hsz Hnn].
  pose proof (stands_live _ _ _ _ Hst) as Hl.
  destruct Hst as (Hq & x & Hx & Hname & Hp & Hlx).
  rewrite Huc. unfold ffurl_size, through. rewrite Hl.
  rewrite <- Hname in Hf. now rewrite (quiet_size w c x f Hq Hx Hf).
Qed.

Lemma segment_file_some (data : flccat_data) (w : fsworld) (i : Z) (g : file) :
  segment_file data w i = Some g ->
  exists name, filename_from_idx (filename_fmt data) i = Some name /\
    find_file name (files w) = Some g.
Proof.
  unfold segment_file.
  destruct (filename_from_idx (filename_fmt data) i) as [name|]; [eauto|].
  discriminate.
Qed.

(** [progress] when the candidate is not there. *)
Lemma run_stay (direction : Z) (data : flccat_data) (w : fsworld) (f : file)
  (pos : Z) (name : string) :
  positioned data w f pos ->
  direction = 1 \/ direction = -1 ->
  in_int (idx data + direction) ->
  filename_from_idx (filename_fmt data) (idx data + direction) = Some name ->
  find_file name (files w) = None ->
  progress direction data w = Done (0, data, w).
Proof.
  intros [(c & n0 & Huc & Hst & Hfn & Hf) Hsz Hnn] Hdir Hidx Hname Hnone.
  destruct Hst as (Hq & _).
  unfold progress.
  replace (negb ((direction =? 1) || (direction =? -1))) with false
    by (destruct Hdir; subst; reflexivity).
  unfold add32. rewrite (to_int_small _ Hidx), Hname. cbn [of_option bind].
  unfold file_exist_filename. rewrite (quiet_access w name Hq), Hnone.
  reflexivity.
Qed.

(** [progress] when the candidate is there. *)
Lemma run_switch (direction : Z) (data : flccat_data) (w : fsworld) (f g : file)
  (pos : Z) :
  positioned data w f pos ->
  direction = 1 \/ direction = -1 ->
  in_int (idx data + direction) ->
  segment_file data w (idx data + direction) = Some g ->
  in_int64 (if direction >? 0 then segment_start data + f_size f
            else segment_start data - f_size g) ->
  exists data' w',
    progress direction data w = Done (1, data', w') /\
    positioned data' w' g 0 /\ files w' = files w /\
    idx data' = idx data + direction /\
    filename_fmt data' = filename_fmt data /\
    segment_start data' =
      if direction >? 0 then segment_start data + f_size f
      else segment_start data - f_size g.
Proof.
  intros Hpos Hdir Hidx Hseg Hoff.
  pose proof Hpos as [(c & name & Huc & Hst & Hfn & Hf) Hsz Hnn].
  destruct (segment_file_some _ _ _ _ Hseg) as (candidate & Hcand & Hg).
  pose proof (stands_live _ _ _ _ Hst) as Hlivec.
  destruct Hst as (Hq & x & Hx & Hname & Hp & Hlx).
  rewrite <- Hname in Hf.
  assert (Hadd : add32 (idx data) direction = idx data + direction)
    by (unfold add32; apply to_int_small; exact Hidx).
  unfold progress.
  replace (negb ((direction =? 1) || (direction =? -1))) with false
    by (destruct Hdir; subst; reflexivity).
  rewrite Hadd, Hcand. cbn [of_option bind].
  unfold file_exist_filename. rewrite (quiet_access w candidate Hq), Hg.
  rewrite Huc. unfold ffurl_size, through. rewrite Hlivec.
  rewrite (quiet_size w c x f Hq Hx Hf). cbn [bind].
  unfold close_current, ffurl_close. rewrite Huc, Hlivec.
  rewrite (quiet_close w c x Hq Hx). cbn [bind].
  change (0 <? 0) with false. cbv iota.
  unfold current_flags. rewrite Huc. cbn [bind].
  set (wc := with_ctx w c _).
  set (flags := acc_flags c wc).
  assert (Hqc : env wc = []) by exact Hq.
  assert (Hgc : find_file candidate (files wc) = Some g) by exact Hg.
  rewrite (quiet_open_filename wc candidate flags data g Hqc Hgc (Hnn _ _ Hg)).
  cbn [bind]. change (0 <? 0) with false. cbv iota.
  set (n := List.length (ctxs wc)).
  set (wo := with_new_ctx wc (just_opened candidate flags)).
  assert (Hn : nth_error (ctxs wo) n = Some (just_opened candidate flags))
    by apply nth_error_new_ctx.
  assert (Hlo : acc_live (Accessor := file_accessor) n wo = true).
  { cbn [acc_live file_accessor]. unfold fw_live. now rewrite Hn. }
  match goal with
  | |- context [ffurl_seek (uc (current ?d)) _ _ _] => set (d5 := d)
  end.
  assert (Hd5 : uc (current d5) = Some n /\
                size (current d5) = f_size g /\
                idx d5 = idx data + direction /\
                filename_fmt d5 = filename_fmt data /\
                segment_start d5 =
                  if direction >? 0 then segment_start data + f_size f
                  else segment_start data - f_size g).
  { subst d5. destruct Hdir as [Hd|Hd]; rewrite Hd in *.
    - change (1 >? 0) with true in *. cbv iota. cbn. rewrite Hadd.
      unfold add64. rewrite to_int64_small by exact Hoff. auto.
    - change (-1 >? 0) with false in *. cbv iota. cbn. rewrite Hadd.
      unfold sub64. rewrite to_int64_small by exact Hoff. auto. }
  destruct Hd5 as (Hu5 & Hz5 & Hi5 & Hf5 & Hs5).
  rewrite Hu5. unfold ffurl_seek, through. rewrite Hlo.
  rewrite (quiet_seek_start wo n (just_opened candidate flags) g Hqc Hn Hg).
  cbn [bind]. change (0 <? 0) with false. cbv iota.
  eexists d5, _. split; [reflexivity|].
  split; [|split; [reflexivity | auto]].
  constructor; [|exact Hz5 | exact Hnn].
  exists n, candidate. split; [exact Hu5|]. split.
  - change candidate with (fc_name (just_opened candidate flags)) at 2.
    apply (stands_moved wo n (just_opened candidate flags) 0 Hqc Hn eq_refl).
  - rewrite Hf5, Hi5. auto.
Qed.

Lemma run_seek_cur (data : flccat_data) (w : fsworld) (f : file) (pos : Z) :
  positioned data w f pos -> 0 <= pos ->
  exists w',
    ffurl_seek (uc (current data)) 0 SEEK_CUR w = Done (pos, w') /\
    positioned data w' f pos /\ files w' = files w.
Proof.
  intros Hpos Hp.
  destruct (run_seek data w f pos 0 SEEK_CUR Hpos) as (w' & H); [auto | |].
  - cbn. lia.
  - cbn in H. rewrite Z.add_0_r in H. eauto.
Qed.

Lemma run_seek_set (data : flccat_data) (w : fsworld) (f : file) (pos p : Z) :
  positioned data w f pos -> 0 <= p ->
  exists w',
    ffurl_seek (uc (current data)) p SEEK_SET w = Done (p, w') /\
    positioned data w' f p /\ files w' = files w.
Proof.
  intros Hpos Hp.
  destruct (run_seek data w f pos p SEEK_SET Hpos) as (w' & H); [auto | |].
  - cbn. lia.
  - cbn in H. eauto.
Qed.

Lemma run_seek_end (data : flccat_data) (w : fsworld) (f : file) (pos p : Z) :
  positioned data w f pos -> 0 <= f_size f + p ->
  exists w',
    ffurl_seek (uc (current data)) p SEEK_END w = Done (f_size f + p, w') /\
    positioned data w' f (f_size f + p) /\ files w' = files w.
Proof.
  intros Hpos Hp.
  destruct (run_seek data w f pos p SEEK_END Hpos) as (w' & H); [auto | |].
  - cbn. lia.
  - cbn in H. eauto.
Qed.

Lemma seek_backward_skip (fuel : nat) (offset pos : Z) (data : flccat_data)
  (w : fsworld) :
  0 <= add64 offset pos ->
  seek_backward fuel offset pos data w = Done (Fallthrough pos, data, w).
Proof.
  intros H. assert (E : (add64 offset pos <? 0) = false) by (apply Z.ltb_ge; exact H).
  destruct fuel; simpl; now rewrite E.
Qed.

Lemma seek_forward_skip (fuel : nat) (offset pos : Z) (data : flccat_data)
  (w : fsworld) :
  add64 offset pos <= size (current data) ->
  seek_forward fuel offset pos data w = Done (Fallthrough pos, data, w).
Proof.
  intros H.
  assert (E : (add64 offset pos >? size (current data)) = false)
    by (rewrite Z.gtb_ltb; apply Z.ltb_ge; exact H).
  destruct fuel; simpl; now rewrite E.
Qed.

(** [seek_relative] when the target is in the current segment. *)
Lemma seek_relative_within (fuel : nat) (p : Z) (data : flccat_data)
  (w : fsworld) (f : file) (pos : Z) :
  positioned data w f pos -> 0 <= pos ->
  0 <= pos + p <= f_size f ->
  in_int64 (pos + p) -> in_int64 (segment_start data + (pos + p)) ->
  exists w',
    seek_relative fuel p data w
      = Done (segment_start data + (pos + p), data, w') /\
    positioned data w' f (pos + p) /\ files w' = files w.
Proof.
  intros Hpos Hp Hin R1 R2.
  destruct (run_seek_cur data w f pos Hpos Hp) as (w1 & Hcur & Hpos1 & Hf1).
  assert (Hadd : add64 pos p = pos + p)
    by (unfold add64; now apply to_int64_small).
  unfold seek_relative. rewrite Hcur. cbn [bind].
  rewrite seek_backward_skip by (rewrite Hadd; lia). cbn [bind].
  rewrite seek_forward_skip
    by (rewrite Hadd, (size_recorded _ _ _ _ Hpos); lia).
  cbn [bind]. rewrite Hadd.
  destruct (run_seek_set data w1 f pos (pos + p) Hpos1) as (w2 & Hset & Hpos2 & Hf2);
    [lia|].
  rewrite Hset. cbn [bind].
  replace (pos + p <? 0) with false by (symmetry; apply Z.ltb_ge; lia).
  unfold add64. rewrite to_int64_small by exact R2.
  exists w2. split; [reflexivity|]. split; [exact Hpos2 | congruence].
Qed.

(** X14: a [SEEK_CUR] request whose target is in the current segment, its
    end included, returns [segment_start] plus the new local position and
    makes no transition, with any fuel. *)
Theorem seek_cur_within_segment (fuel : nat) (p : Z) (data : flccat_data)
  (w : fsworld) (f : file) (pos : Z) :
  positioned data w f pos -> 0 <= pos ->
  0 <= pos + p <= f_size f ->
  in_int64 (pos + p) -> in_int64 (segment_start data + (pos + p)) ->
  exists w',
    flccat_seek fuel p SEEK_CUR data w
      = Done (segment_start data + (pos + p), data, w') /\
    positioned data w' f (pos + p).
Proof.
  intros Hpos Hp Hin R1 R2.
  destruct (seek_relative_within fuel p data w f pos Hpos Hp Hin R1 R2)
    as (w' & H & Hpos' & _).
  exists w'. split; [exact H | exact Hpos'].
Qed.

(** X15: a [SEEK_SET] request for a virtual offset [v] of the current
    segment, from its start to its end, returns [v] and leaves the local
    position at [v - segment_start]. *)
Theorem seek_set_within_segment (fuel : nat) (v : Z) (data : flccat_data)
  (w : fsworld) (f : file) (pos : Z) :
  positioned data w f pos -> 0 <= pos ->
  segment_start data <= v <= segment_start data + f_size f ->
  in_int64 v -> in_int64 (v - segment_start data) ->
  in_int64 (segment_start data + pos) ->
  in_int64 (v - (segment_start data + pos)) ->
  exists w',
    flccat_seek fuel v SEEK_SET data w = Done (v, data, w') /\
    positioned data w' f (v - segment_start data).
Proof.
  intros Hpos Hp Hv R1 R2 R3 R4.
  destruct (run_seek_cur data w f pos Hpos Hp) as (w1 & Hcur & Hpos1 & Hf1).
  unfold flccat_seek. cbn. rewrite Hcur. cbn [bind].
  unfold add64. rewrite to_int64_small by exact R3.
  unfold sub64. rewrite to_int64_small by exact R4.
  destruct (seek_relative_within fuel (v - (segment_start data + pos)) data w1 f
              pos Hpos1 Hp) as (w' & H & Hpos' & _).
  - lia.
  - replace (pos + (v - (segment_start data + pos)))
      with (v - segment_start data) by lia. exact R2.
  - replace (segment_start data + (pos + (v - (segment_start data + pos))))
      with v by lia. exact R1.
  - replace (segment_start data + (pos + (v - (segment_start data + pos))))
      with v in H by lia.
    replace (pos + (v - (segment_start data + pos)))
      with (v - segment_start data) in Hpos' by lia.
    exists w'. split; [exact H | exact Hpos'].
Qed.

(** X16: a [SEEK_CUR] request whose target is in the next segment, the
    segment left being no larger than [INT_MAX], switches once and returns
    the virtual offset asked for; the local position is what is left of
    the request after the segment left. *)
Theorem seek_forward_across_boundary (fuel : nat) (p : Z) (data : flccat_data)
  (w : fsworld) (f g : file) (pos : Z) :
  positioned data w f pos -> 0 <= pos ->
  f_size f < pos + p <= f_size f + f_size g ->
  f_size f <= INT_MAX ->
  in_int (idx data + 1) ->
  segment_file data w (idx data + 1) = Some g ->
  in_int64 (pos + p) -> in_int64 (p - f_size f) ->
  in_int64 (segment_start data + f_size f) ->
  in_int64 (segment_start data + (pos + p)) ->
  exists data' w',
    flccat_seek (S fuel) p SEEK_CUR data w
      = Done (segment_start data + (pos + p), data', w') /\
    positioned data' w' g (pos + p - f_size f) /\
    idx data' = idx data + 1 /\
    segment_start data' = segment_start data + f_size f.
Proof.
  intros Hpos Hp Hin Hint Hidx Hseg R1 R2 R3 R4.
  pose proof (no_negative_size _ _ _ _ Hpos) as Hnn.
  assert (Hf0 : 0 <= f_size f).
  { destruct (at_context _ _ _ _ Hpos) as (c & name & _ & _ & _ & Hf).
    exact (Hnn _ _ Hf). }
  destruct (run_seek_cur data w f pos Hpos Hp) as (w1 & Hcur & Hpos1 & Hf1).
  assert (Hseg1 : segment_file data w1 (idx data + 1) = Some g)
    by (unfold segment_file in *; now rewrite Hf1).
  destruct (run_switch 1 data w1 f g pos Hpos1 (or_introl eq_refl) Hidx Hseg1 R3)
    as (d2 & w2 & Hgo & Hpos2 & Hf2 & Hi2 & Hfmt2 & Hs2).
  change (1 >? 0) with true in Hs2. cbv iota in Hs2.
  assert (Hadd : add64 pos p = pos + p)
    by (unfold add64; now apply to_int64_small).
  unfold flccat_seek. cbn. unfold seek_relative. rewrite Hcur. cbn [bind].
  rewrite seek_backward_skip by (rewrite Hadd; lia). cbn [bind].
  cbn [seek_forward]. rewrite Hadd, (size_recorded _ _ _ _ Hpos).
  replace (pos + p >? f_size f) with true
    by (symmetry; rewrite Z.gtb_ltb; apply Z.ltb_lt; lia).
  unfold go_forward. rewrite Hgo. cbn [bind].
  change (1 =? 0) with false. change (1 =? 1) with true. cbv iota.
  rewrite to_int_small by (unfold in_int, INT_MIN; lia).
  unfold sub64. rewrite (to_int64_small _ R2).
  assert (Hadd2 : add64 pos (p - f_size f) = pos + p - f_size f).
  { unfold add64. replace (pos + (p - f_size f)) with (pos + p - f_size f) by lia.
    apply to_int64_small. unfold in_int64, LONG_MIN, LONG_MAX in *. lia. }
  rewrite seek_forward_skip
    by (rewrite Hadd2, (size_recorded _ _ _ _ Hpos2); lia).
  cbn [bind]. rewrite Hadd2.
  destruct (run_seek_set d2 w2 g 0 (pos + p - f_size f) Hpos2)
    as (w3 & Hset & Hpos3 & Hf3); [lia|].
  rewrite Hset. cbn [bind].
  replace (pos + p - f_size f <? 0) with false
    by (symmetry; apply Z.ltb_ge; lia).
  unfold add64. rewrite Hs2.
  replace (segment_start data + f_size f + (pos + p - f_size f))
    with (segment_start data + (pos + p)) by lia.
  rewrite to_int64_small by exact R4.
  exists d2, w3. auto.
Qed.

(** X17: a [SEEK_CUR] request whose target is in the previous segment
    switches back once and returns the virtual offset asked for, below
    [segment_start]; the local position is counted from the end of the
    segment entered. *)
Theorem seek_backward_across_boundary (fuel : nat) (p : Z) (data : flccat_data)
  (w : fsworld) (f g : file) (pos : Z) :
  positioned data w f pos -> 0 <= pos ->
  - f_size g <= pos + p < 0 ->
  in_int (idx data + -1) ->
  segment_file data w (idx data + -1) = Some g ->
  in_int64 (f_size g) ->
  in_int64 (pos + p) -> in_int64 (p + f_size g) ->
  in_int64 (segment_start data - f_size g) ->
  in_int64 (segment_start data + (pos + p)) ->
  exists data' w',
    flccat_seek (S fuel) p SEEK_CUR data w
      = Done (segment_start data + (pos + p), data', w') /\
    positioned data' w' g (f_size g + (pos + p)) /\
    idx data' = idx data + -1 /\
    segment_start data' = segment_start data - f_size g.
Proof.
  intros Hpos Hp Hin Hidx Hseg R0 R1 R2 R3 R4.
  destruct (run_seek_cur data w f pos Hpos Hp) as (w1 & Hcur & Hpos1 & Hf1).
  assert (Hseg1 : segment_file data w1 (idx data + -1) = Some g)
    by (unfold segment_file in *; now rewrite Hf1).
  destruct (run_switch (-1) data w1 f g pos Hpos1 (or_intror eq_refl) Hidx Hseg1 R3)
    as (d2 & w2 & Hgo & Hpos2 & Hf2 & Hi2 & Hfmt2 & Hs2).
  change (-1 >? 0) with false in Hs2. cbv iota in Hs2.
  assert (Hadd : add64 pos p = pos + p)
    by (unfold add64; now apply to_int64_small).
  unfold flccat_seek. cbn. unfold seek_relative. rewrite Hcur. cbn [bind].
  cbn [seek_backward]. rewrite Hadd.
  replace (pos + p <? 0) with true by (symmetry; apply Z.ltb_lt; lia).
  unfold go_backward. rewrite Hgo. cbn [bind].
  change (1 =? 0) with false. change (1 =? 1) with true. cbv iota.
  rewrite (size_recorded _ _ _ _ Hpos2).
  assert (Hp2 : add64 p (f_size g) = p + f_size g)
    by (unfold add64; now apply to_int64_small).
  rewrite Hp2.
  assert (Hadd2 : add64 pos (p + f_size g) = f_size g + (pos + p)).
  { unfold add64. replace (pos + (p + f_size g)) with (f_size g + (pos + p)) by lia.
    apply to_int64_small. unfold in_int64, LONG_MIN, LONG_MAX in *. lia. }
  rewrite seek_backward_skip by (rewrite Hadd2; lia). cbn [bind].
  rewrite seek_forward_skip
    by (rewrite Hadd2, (size_recorded _ _ _ _ Hpos2); lia).
  cbn [bind]. rewrite Hadd2.
  destruct (run_seek_set d2 w2 g 0 (f_size g + (pos + p)) Hpos2)
    as (w3 & Hset & Hpos3 & Hf3); [lia|].
  rewrite Hset. cbn [bind].
  replace (f_size g + (pos + p) <? 0) with false
    by (symmetry; apply Z.ltb_ge; lia).
  unfold add64. rewrite Hs2.
  replace (segment_start data - f_size g + (f_size g + (pos + p)))
    with (segment_start data + (pos + p)) by lia.
  rewrite to_int64_small by exact R4.
  exists d2, w3. auto.
Qed.

(** X18: a [SEEK_CUR] request whose target is before the current segment,
    when no previous segment is there, is clamped: it returns
    [segment_start] and leaves the local position at 0. *)
Theorem seek_clamps_at_start (fuel : nat) (p : Z) (data : flccat_data)
  (w : fsworld) (f : file) (pos : Z) (name : string) :
  positioned data w f pos -> 0 <= pos -> pos + p < 0 ->
  in_int (idx data + -1) ->
  filename_from_idx (filename_fmt data) (idx data + -1) = Some name ->
  find_file name (files w) = None ->
  in_int64 (pos + p) -> in_int64 (segment_start data) ->
  exists w',
    flccat_seek (S fuel) p SEEK_CUR data w = Done (segment_start data, data, w') /\
    positioned data w' f 0.
Proof.
  intros Hpos Hp Hin Hidx Hname Hnone R1 R2.
  destruct (run_seek_cur data w f pos Hpos Hp) as (w1 & Hcur & Hpos1 & Hf1).
  rewrite <- Hf1 in Hnone.
  pose proof (run_stay (-1) data w1 f pos name Hpos1 (or_intror eq_refl)
                Hidx Hname Hnone) as Hgo.
  assert (Hadd : add64 pos p = pos + p)
    by (unfold add64; now apply to_int64_small).
  unfold flccat_seek. cbn. unfold seek_relative. rewrite Hcur. cbn [bind].
  cbn [seek_backward]. rewrite Hadd.
  replace (pos + p <? 0) with true by (symmetry; apply Z.ltb_lt; lia).
  unfold go_backward. rewrite Hgo. cbn [bind].
  change (0 =? 0) with true. cbv iota.
  destruct (run_seek_set data w1 f pos 0 Hpos1) as (w2 & Hset & Hpos2 & _);
    [lia|].
  rewrite Hset. cbn [bind]. change (0 <? 0) with false. cbv iota.
  unfold add64. rewrite Z.add_0_r, to_int64_small by exact R2.
  exists w2. auto.
Qed.

(** X19: a [SEEK_CUR] request whose target is past the current segment,
    when no next segment is there and the segment is not empty, is
    clamped to the last byte of the segment, not to its end: it returns
    [segment_start] plus the size less one. *)
Theorem seek_clamps_at_last_byte (fuel : nat) (p : Z) (data : flccat_data)
  (w : fsworld) (f : file) (pos : Z) (name : string) :
  positioned data w f pos -> 0 <= pos -> f_size f < pos + p ->
  1 <= f_size f ->
  in_int (idx data + 1) ->
  filename_from_idx (filename_fmt data) (idx data + 1) = Some name ->
  find_file name (files w) = None ->
  in_int64 (pos + p) -> in_int64 (segment_start data + (f_size f - 1)) ->
  exists w',
    flccat_seek (S fuel) p SEEK_CUR data w
      = Done (segment_start data + (f_size f - 1), data, w') /\
    positioned data w' f (f_size f - 1).
Proof.
  intros Hpos Hp Hin Hne Hidx Hname Hnone R1 R2.
  destruct (run_seek_cur data w f pos Hpos Hp) as (w1 & Hcur & Hpos1 & Hf1).
  rewrite <- Hf1 in Hnone.
  pose proof (run_stay 1 data w1 f pos name Hpos1 (or_introl eq_refl)
                Hidx Hname Hnone) as Hgo.
  assert (Hadd : add64 pos p = pos + p)
    by (unfold add64; now apply to_int64_small).
  unfold flccat_seek. cbn. unfold seek_relative. rewrite Hcur. cbn [bind].
  rewrite seek_backward_skip by (rewrite Hadd; lia). cbn [bind].
  cbn [seek_forward]. rewrite Hadd, (size_recorded _ _ _ _ Hpos).
  replace (pos + p >? f_size f) with true
    by (symmetry; rewrite Z.gtb_ltb; apply Z.ltb_lt; lia).
  unfold go_forward. rewrite Hgo. cbn [bind].
  change (0 =? 0) with true. cbv iota.
  unfold update_current_size. rewrite (run_size data w1 f pos Hpos1).
  cbn [bind].
  replace (f_size f <? 0) with false by (symmetry; apply Z.ltb_ge; lia).
  cbn [bind].
  assert (Hsame : set_current data {| uc := uc (current data); size := f_size f |}
                  = data).
  { destruct data as [[u z] i fm st]. cbn in *.
    pose proof (size_recorded _ _ _ _ Hpos) as Hz. cbn in Hz. now subst z. }
  rewrite Hsame.
  destruct (run_seek_end data w1 f pos (-1) Hpos1) as (w2 & Hend & Hpos2 & _);
    [lia|].
  rewrite Hend. cbn [bind].
  replace (f_size f + -1) with (f_size f - 1) in * by lia.
  replace (f_size f - 1 <? 0) with false by (symmetry; apply Z.ltb_ge; lia).
  unfold add64. rewrite to_int64_small by exact R2.
  exists w2. auto.
Qed.

(** The loop of [flccat_read] when nothing is left to read. *)
Lemma read_loop_done (fuel : nat) (n total : Z) (buf : list Z)
  (data : flccat_data) (w : fsworld) :
  n <= 0 -> read_loop fuel n total buf data w = Done (total, buf, data, w).
Proof.
  intros H.
  assert (E : (n >? 0) = false) by (rewrite Z.gtb_ltb; apply Z.ltb_ge; exact H).
  destruct fuel; simpl; now rewrite E.
Qed.

(** One pass of the loop that finds all it asks for in the current
    segment. *)
Lemma read_loop_within (fuel : nat) (n total : Z) (buf : list Z)
  (data : flccat_data) (w : fsworld) (f : file) (pos : Z) :
  positioned data w f pos -> 0 < n <= f_size f - pos ->
  in_int n -> in_int (total + n) ->
  exists w',
    read_loop (S fuel) n total buf data w
      = Done (total + n, (buf ++ bytes_from f pos (Z.to_nat n))%list, data, w') /\
    positioned data w' f (pos + n) /\ files w' = files w.
Proof.
  intros Hpos Hn R1 R2.
  destruct (run_read data w f pos n Hpos) as (w1 & Hread & Hpos1 & Hf1).
  replace (Z.max 0 (Z.min n (f_size f - pos))) with n in * by lia.
  cbn [read_loop].
  replace (n >? 0) with true
    by (symmetry; rewrite Z.gtb_ltb; apply Z.ltb_lt; lia).
  rewrite Hread. cbn [bind].
  replace (n <? 0) with false by (symmetry; apply Z.ltb_ge; lia).
  replace (n =? 0) with false by (symmetry; apply Z.eqb_neq; lia).
  rewrite Z.ltb_irrefl. cbn [orb].
  rewrite read_loop_done
    by (unfold sub32; rewrite Z.sub_diag; vm_compute; discriminate).
  unfold add32. rewrite (to_int_small _ R2). eauto.
Qed.

(** X20: a read of [n] bytes that the current segment still holds returns
    [n], stores the [n] bytes of the segment from its position on, and
    moves the position by [n]; no transition is made. *)
Theorem read_within_segment (fuel : nat) (n : Z) (data : flccat_data)
  (w : fsworld) (f : file) (pos : Z) :
  positioned data w f pos -> 0 < n <= f_size f - pos -> in_int n ->
  exists w',
    flccat_read (S fuel) n data w
      = Done (n, bytes_from f pos (Z.to_nat n), data, w') /\
    positioned data w' f (pos + n).
Proof.
  intros Hpos Hn R.
  destruct (read_loop_within fuel n 0 [] data w f pos Hpos Hn R R)
    as (w' & H & Hpos' & _).
  exists w'. split; [exact H | exact Hpos'].
Qed.

(** X21: a read of [n] bytes of which the current segment holds fewer,
    the next segment holding the rest, returns [n] and stores what is left
    of the current segment followed by the first bytes of the next one;
    the stream is then in the next segment, right after the bytes read. *)
Theorem read_across_boundary (fuel : nat) (n : Z) (data : flccat_data)
  (w : fsworld) (f g : file) (pos : Z) :
  positioned data w f pos -> 0 <= pos <= f_size f ->
  f_size f - pos < n <= f_size f - pos + f_size g -> in_int n ->
  in_int (idx data + 1) ->
  segment_file data w (idx data + 1) = Some g ->
  in_int64 (segment_start data + f_size f) ->
  exists data' w',
    flccat_read (S (S fuel)) n data w
      = Done (n, (bytes_from f pos (Z.to_nat (f_size f - pos))
                  ++ bytes_from g 0 (Z.to_nat (n - (f_size f - pos))))%list,
              data', w') /\
    positioned data' w' g (n - (f_size f - pos)) /\
    idx data' = idx data + 1 /\
    segment_start data' = segment_start data + f_size f.
Proof.
  intros Hpos Hp Hn R Hidx Hseg Roff.
  set (r := f_size f - pos) in *.
  destruct (run_read data w f pos n Hpos) as (w1 & Hread & Hpos1 & Hf1).
  fold r in Hread, Hpos1.
  replace (Z.max 0 (Z.min n r)) with r in * by lia.
  assert (Hseg1 : segment_file data w1 (idx data + 1) = Some g)
    by (unfold segment_file in *; now rewrite Hf1).
  destruct (run_switch 1 data w1 f g (pos + r) Hpos1 (or_introl eq_refl)
              Hidx Hseg1 Roff)
    as (d2 & w2 & Hgo & Hpos2 & Hf2 & Hi2 & Hfmt2 & Hs2).
  change (1 >? 0) with true in Hs2. cbv iota in Hs2.
  destruct (run_seek_set d2 w2 g 0 0 Hpos2) as (w3 & Hset & Hpos3 & Hf3); [lia|].
  assert (Rn : in_int (n - r)) by (unfold in_int, INT_MIN, INT_MAX in *; lia).
  assert (Rr : in_int (0 + r)) by (unfold in_int, INT_MIN, INT_MAX in *; lia).
  destruct (read_loop_within fuel (n - r) r (bytes_from f pos (Z.to_nat r))
              d2 w3 g 0 Hpos3) as (w4 & Hrest & Hpos4 & _);
    [lia | exact Rn | replace (r + (n - r)) with n by lia; exact R |].
  unfold flccat_read. set (fu := S fuel) in *. clearbody fu. cbn [read_loop].
  replace (n >? 0) with true
    by (symmetry; rewrite Z.gtb_ltb; apply Z.ltb_lt; lia).
  rewrite Hread. cbn [bind].
  replace (r <? 0) with false by (symmetry; apply Z.ltb_ge; lia).
  replace (r <? n) with true by (symmetry; apply Z.ltb_lt; lia).
  rewrite orb_true_r. unfold go_forward. rewrite Hgo. cbn [bind].
  change (to_int 1 <? 0) with false. cbv iota.
  unfold activate_current. rewrite Hset. cbn [bind].
  change (to_int 0 <? 0) with false. cbv iota.
  unfold sub32, add32. rewrite (to_int_small _ Rn), (to_int_small _ Rr).
  rewrite Z.add_0_l. cbn [app]. rewrite Hrest.
  replace (r + (n - r)) with n by lia.
  exists d2, w4. auto.
Qed.

(** The loop of [flccat_read] on an empty segment that has no successor:
    every pass reads nothing, stays, and rewinds. *)
Lemma read_loop_empty_last (fuel : nat) :
  forall (n total : Z) (buf : list Z) (data : flccat_data) (w : fsworld)
    (f : file) (pos : Z) (name : string),
  positioned data w f pos -> 0 <= pos -> f_size f = 0 ->
  0 < n -> in_int n ->
  in_int (idx data + 1) ->
  filename_from_idx (filename_fmt data) (idx data + 1) = Some name ->
  find_file name (files w) = None ->
  read_loop fuel n total buf data w = OutOfFuel.
Proof.
  induction fuel as [|fuel IH]; intros n total buf data w f pos name
    Hpos Hp Hz Hn R Hidx Hname Hnone.
  - cbn [read_loop].
    now replace (n >? 0) with true
      by (symmetry; rewrite Z.gtb_ltb; apply Z.ltb_lt; lia).
  - destruct (run_read data w f pos n Hpos) as (w1 & Hread & Hpos1 & Hf1).
    replace (Z.max 0 (Z.min n (f_size f - pos))) with 0 in * by lia.
    rewrite <- Hf1 in Hnone.
    pose proof (run_stay 1 data w1 f (pos + 0) name Hpos1 (or_introl eq_refl)
                  Hidx Hname Hnone) as Hgo.
    destruct (run_seek_set data w1 f (pos + 0) 0 Hpos1)
      as (w2 & Hset & Hpos2 & Hf2); [lia|].
    cbn [read_loop].
    replace (n >? 0) with true
      by (symmetry; rewrite Z.gtb_ltb; apply Z.ltb_lt; lia).
    rewrite Hread. cbn [bind]. change (0 <? 0) with false.
    change (0 =? 0) with true. cbv iota. cbn [orb].
    unfold go_forward. rewrite Hgo. cbn [bind].
    change (to_int 0 <? 0) with false. cbv iota.
    unfold activate_current. rewrite Hset. cbn [bind].
    change (to_int 0 <? 0) with false. cbv iota.
    unfold sub32. rewrite Z.sub_0_r, (to_int_small _ R).
    apply (IH n _ _ data w2 f 0 name Hpos2); try assumption; try lia.
    now rewrite Hf2.
Qed.

(** X22: on an empty segment that has no successor, a read of one byte or
    more does not return: whatever the number of passes allowed, the loop
    is still running, each pass reading nothing and rewinding the
    segment. *)
Theorem read_empty_last_segment_never_returns (fuel : nat) (n : Z)
  (data : flccat_data) (w : fsworld) (f : file) (pos : Z) (name : string) :
  positioned data w f pos -> 0 <= pos -> f_size f = 0 ->
  0 < n -> in_int n ->
  in_int (idx data + 1) ->
  filename_from_idx (filename_fmt data) (idx data + 1) = Some name ->
  find_file name (files w) = None ->
  flccat_read fuel n data w = OutOfFuel.
Proof.
  intros. unfold flccat_read. eapply read_loop_empty_last; eassumption.
Qed.

(** [SEEK_END] when the current segment has no successor. *)
Lemma seek_end_last (fuel : nat) (p : Z) (data : flccat_data)
  (w : fsworld) (f : file) (pos : Z) (name : string) :
  positioned data w f pos ->
  in_int (idx data + 1) ->
  filename_from_idx (filename_fmt data) (idx data + 1) = Some name ->
  find_file name (files w) = None ->
  - f_size f <= p <= 0 ->
  in_int64 (f_size f + p) -> in_int64 (segment_start data + (f_size f + p)) ->
  exists w',
    flccat_seek (S fuel) p SEEK_END data w
      = Done (segment_start data + (f_size f + p), data, w') /\
    positioned data w' f (f_size f + p) /\ files w' = files w.
Proof.
  intros Hpos Hidx Hname Hnone Hp R1 R2.
  pose proof (run_stay 1 data w f pos name Hpos (or_introl eq_refl)
                Hidx Hname Hnone) as Hgo.
  destruct (run_seek_set data w f pos 0 Hpos) as (w1 & Hset & Hpos1 & Hf1);
    [lia|].
  destruct (seek_relative_within (S fuel) (f_size f + p) data w1 f 0 Hpos1)
    as (w2 & Hrel & Hpos2 & Hf2); try (rewrite ?Z.add_0_l; assumption); try lia.
  rewrite Z.add_0_l in *.
  unfold flccat_seek. change (SEEK_END =? SEEK_END) with true. cbv iota.
  cbn [drain_forward]. unfold go_forward at 1. rewrite Hgo. cbn [bind].
  change (0 >? 0) with false. cbv iota. cbn [bind].
  change (0 <? 0) with false. cbv iota.
  unfold activate_current. rewrite Hset. cbn [bind].
  change (0 <? 0) with false. cbv iota.
  rewrite (size_recorded _ _ _ _ Hpos).
  unfold add64 at 1. rewrite (to_int64_small _ R1).
  rewrite Hrel. exists w2. split; [reflexivity|]. split; [exact Hpos2 | congruence].
Qed.

(** X23: on a segment that has no successor, a [SEEK_END] request of
    [p], from [-size] to 0, returns [segment_start + size + p] and leaves
    the position [-p] bytes before the end of the segment. *)
Theorem seek_end_on_last_segment (fuel : nat) (p : Z) (data : flccat_data)
  (w : fsworld) (f : file) (pos : Z) (name : string) :
  positioned data w f pos ->
  in_int (idx data + 1) ->
  filename_from_idx (filename_fmt data) (idx data + 1) = Some name ->
  find_file name (files w) = None ->
  - f_size f <= p <= 0 ->
  in_int64 (f_size f + p) -> in_int64 (segment_start data + (f_size f + p)) ->
  exists w',
    flccat_seek (S fuel) p SEEK_END data w
      = Done (segment_start data + (f_size f + p), data, w') /\
    positioned data w' f (f_size f + p).
Proof.
  intros Hpos Hidx Hname Hnone Hp R1 R2.
  destruct (seek_end_last fuel p data w f pos name Hpos Hidx Hname Hnone Hp R1 R2)
    as (w' & H & Hpos' & _).
  eauto.
Qed.

(** X24: from the segment before the last one, a [SEEK_END] request of
    [p], from minus the size of the last segment to 0, switches to the
    last segment and returns the sizes of both segments plus [p], counted
    from [segment_start]: with [p = 0], the end of the stream. *)
Theorem seek_end_from_previous_segment (fuel : nat) (p : Z)
  (data : flccat_data) (w : fsworld) (f g : file) (pos : Z) (name : string) :
  positioned data w f pos ->
  in_int (idx data + 1) -> in_int (idx data + 1 + 1) ->
  segment_file data w (idx data + 1) = Some g ->
  filename_from_idx (filename_fmt data) (idx data + 1 + 1) = Some name ->
  find_file name (files w) = None ->
  - f_size g <= p <= 0 ->
  in_int64 (f_size g + p) ->
  in_int64 (segment_start data + f_size f) ->
  in_int64 (segment_start data + f_size f + (f_size g + p)) ->
  exists data' w',
    flccat_seek (S (S fuel)) p SEEK_END data w
      = Done (segment_start data + f_size f + (f_size g + p), data', w') /\
    positioned data' w' g (f_size g + p) /\
    idx data' = idx data + 1.
Proof.
  intros Hpos Hidx Hidx2 Hseg Hname Hnone Hp R1 R2 R3.
  destruct (run_switch 1 data w f g pos Hpos (or_introl eq_refl) Hidx Hseg R2)
    as (d2 & w2 & Hgo & Hpos2 & Hf2 & Hi2 & Hfmt2 & Hs2).
  change (1 >? 0) with true in Hs2. cbv iota in Hs2.
  rewrite <- Hi2, <- Hfmt2 in Hname. rewrite <- Hi2 in Hidx2.
  rewrite <- Hf2 in Hnone.
  pose proof (run_stay 1 d2 w2 g 0 name Hpos2 (or_introl eq_refl)
                Hidx2 Hname Hnone) as Hstay.
  destruct (run_seek_set d2 w2 g 0 0 Hpos2) as (w3 & Hset & Hpos3 & Hf3);
    [lia|].
  destruct (seek_relative_within (S (S fuel)) (f_size g + p) d2 w3 g 0 Hpos3)
    as (w4 & Hrel & Hpos4 & Hf4);
    rewrite ?Z.add_0_l, ?Hs2; try assumption; try lia.
  rewrite Z.add_0_l, Hs2 in *.
  unfold flccat_seek. change (SEEK_END =? SEEK_END) with true. cbv iota.
  cbn [drain_forward]. unfold go_forward at 1. rewrite Hgo. cbn [bind].
  change (1 >? 0) with true. cbv iota.
  unfold go_forward at 1. rewrite Hstay. cbn [bind].
  change (0 >? 0) with false. cbv iota. cbn [bind].
  change (0 <? 0) with false. cbv iota.
  unfold activate_current. rewrite Hset. cbn [bind].
  change (0 <? 0) with false. cbv iota.
  rewrite (size_recorded _ _ _ _ Hpos2).
  unfold add64 at 1. rewrite (to_int64_small _ R1).
  rewrite Hrel. exists d2, w4. auto.
Qed.

End StreamFacts.

(** ** The reads and seeks of two segments *)

Module StreamExamples.
Import FileWorld FileWorldFacts Scenarios Streams StreamFacts.

Ltac in_range := vm_compute; split; discriminate.

Lemma sizes_of_two_segments (name from : string) (g : file) :
  find_file name (files (two_segments from)) = Some g -> 0 <= f_size g.
Proof.
  unfold two_segments. cbn [files find_file].
  destruct (String.eqb "seg1" name);
    [intros H; injection H as <-; cbn; lia|].
  destruct (String.eqb "seg2" name);
    [intros H; injection H as <-; cbn; lia|].
  discriminate.
Qed.

(** Segment 1 of two, just opened. *)
Lemma on_first_segment :
  positioned (opened 1 4) (two_segments "seg1") (counting 4) 0.
Proof.
  constructor.
  - exists O, "seg1". repeat split. exists (fresh "seg1"). repeat split.
  - reflexivity.
  - intros name g. apply sizes_of_two_segments.
Qed.

(** Segment 2 of two, just opened. *)
Lemma on_second_segment :
  positioned (opened 2 3) (two_segments "seg2") (counting 3) 0.
Proof.
  constructor.
  - exists O, "seg2". repeat split. exists (fresh "seg2"). repeat split.
  - reflexivity.
  - intros name g. apply sizes_of_two_segments.
Qed.

(** One empty segment, just opened. *)
Lemma on_empty_segment :
  positioned (opened 1 0) (last_segment 0) (counting 0) 0.
Proof.
  constructor.
  - exists O, "seg1". repeat split. exists (fresh "seg1"). repeat split.
  - reflexivity.
  - intros name g. unfold last_segment. cbn [files find_file].
    destruct (String.eqb "seg1" name); [|discriminate].
    intros H; injection H as <-; cbn; lia.
Qed.

Lemma seek_cur_within_segment_witness :
  exists w',
    flccat_seek 0 2 SEEK_CUR (opened 1 4) (two_segments "seg1")
      = Done (2, opened 1 4, w') /\
    positioned (opened 1 4) w' (counting 4) 2.
Proof.
  apply (seek_cur_within_segment 0 2 (opened 1 4) (two_segments "seg1")
           (counting 4) 0).
  - exact on_first_segment.
  - lia.
  - simpl. lia.
  - in_range.
  - in_range.
Defined.

Lemma seek_set_within_segment_witness :
  exists w',
    flccat_seek 0 3 SEEK_SET (opened 1 4) (two_segments "seg1")
      = Done (3, opened 1 4, w') /\
    positioned (opened 1 4) w' (counting 4) 3.
Proof.
  apply (seek_set_within_segment 0 3 (opened 1 4) (two_segments "seg1")
           (counting 4) 0).
  - exact on_first_segment.
  - lia.
  - simpl. lia.
  - in_range.
  - in_range.
  - in_range.
  - in_range.
Defined.

Lemma seek_forward_across_boundary_witness :
  exists data' w',
    flccat_seek 1 5 SEEK_CUR (opened 1 4) (two_segments "seg1")
      = Done (5, data', w') /\
    positioned data' w' (counting 3) 1 /\
    idx data' = 2 /\ segment_start data' = 4.
Proof.
  apply (seek_forward_across_boundary 0 5 (opened 1 4) (two_segments "seg1")
           (counting 4) (counting 3) 0).
  - exact on_first_segment.
  - lia.
  - simpl. lia.
  - vm_compute. discriminate.
  - in_range.
  - reflexivity.
  - in_range.
  - in_range.
  - in_range.
  - in_range.
Defined.

Lemma seek_backward_across_boundary_witness :
  exists data' w',
    flccat_seek 1 (-2) SEEK_CUR (opened 2 3) (two_segments "seg2")
      = Done (-2, data', w') /\
    positioned data' w' (counting 4) 2 /\
    idx data' = 1 /\ segment_start data' = -4.
Proof.
  apply (seek_backward_across_boundary 0 (-2) (opened 2 3) (two_segments "seg2")
           (counting 3) (counting 4) 0).
  - exact on_second_segment.
  - lia.
  - simpl. lia.
  - in_range.
  - reflexivity.
  - in_range.
  - in_range.
  - in_range.
  - in_range.
  - in_range.
Defined.

Lemma seek_clamps_at_start_witness :
  exists w',
    flccat_seek 1 (-1) SEEK_CUR (opened 1 4) (two_segments "seg1")
      = Done (0, opened 1 4, w') /\
    positioned (opened 1 4) w' (counting 4) 0.
Proof.
  apply (seek_clamps_at_start 0 (-1) (opened 1 4) (two_segments "seg1")
           (counting 4) 0 "seg0").
  - exact on_first_segment.
  - lia.
  - lia.
  - in_range.
  - reflexivity.
  - reflexivity.
  - in_range.
  - in_range.
Defined.

Lemma seek_clamps_at_last_byte_witness :
  exists w',
    flccat_seek 1 10 SEEK_CUR (opened 2 3) (two_segments "seg2")
      = Done (2, opened 2 3, w') /\
    positioned (opened 2 3) w' (counting 3) 2.
Proof.
  apply (seek_clamps_at_last_byte 0 10 (opened 2 3) (two_segments "seg2")
           (counting 3) 0 "seg3").
  - exact on_second_segment.
  - lia.
  - simpl. lia.
  - simpl. lia.
  - in_range.
  - reflexivity.
  - reflexivity.
  - in_range.
  - in_range.
Defined.

Lemma read_within_segment_witness :
  exists w',
    flccat_read 1 3 (opened 1 4) (two_segments "seg1")
      = Done (3, [0; 1; 2], opened 1 4, w') /\
    positioned (opened 1 4) w' (counting 4) 3.
Proof.
  apply (read_within_segment 0 3 (opened 1 4) (two_segments "seg1")
           (counting 4) 0).
  - exact on_first_segment.
  - simpl. lia.
  - in_range.
Defined.

Lemma read_across_boundary_witness :
  exists data' w',
    flccat_read 2 6 (opened 1 4) (two_segments "seg1")
      = Done (6, [0; 1; 2; 3; 0; 1], data', w') /\
    positioned data' w' (counting 3) 2 /\
    idx data' = 2 /\ segment_start data' = 4.
Proof.
  apply (read_across_boundary 0 6 (opened 1 4) (two_segments "seg1")
           (counting 4) (counting 3) 0).
  - exact on_first_segment.
  - simpl. lia.
  - simpl. lia.
  - in_range.
  - in_range.
  - reflexivity.
  - in_range.
Defined.

Lemma read_empty_last_segment_never_returns_witness :
  flccat_read 1000 1 (opened 1 0) (last_segment 0) = OutOfFuel.
Proof.
  apply (read_empty_last_segment_never_returns 1000 1 (opened 1 0)
           (last_segment 0) (counting 0) 0 "seg2").
  - exact on_empty_segment.
  - lia.
  - reflexivity.
  - lia.
  - in_range.
  - in_range.
  - reflexivity.
  - reflexivity.
Defined.

Lemma seek_end_on_last_segment_witness :
  exists w',
    flccat_seek 1 (-1) SEEK_END (opened 2 3) (two_segments "seg2")
      = Done (2, opened 2 3, w') /\
    positioned (opened 2 3) w' (counting 3) 2.
Proof.
  apply (seek_end_on_last_segment 0 (-1) (opened 2 3) (two_segments "seg2")
           (counting 3) 0 "seg3").
  - exact on_second_segment.
  - in_range.
  - reflexivity.
  - reflexivity.
  - simpl. lia.
  - in_range.
  - in_range.
Defined.

Lemma seek_end_from_previous_segment_witness :
  exists data' w',
    flccat_seek 2 0 SEEK_END (opened 1 4) (two_segments "seg1")
      = Done (7, data', w') /\
    positioned data' w' (counting 3) 3 /\
    idx data' = 2.
Proof.
  apply (seek_end_from_previous_segment 0 0 (opened 1 4) (two_segments "seg1")
           (counting 4) (counting 3) 0 "seg3").
  - exact on_first_segment.
  - in_range.
  - in_range.
  - reflexivity.
  - reflexivity.
  - reflexivity.
  - simpl. lia.
  - in_range.
  - in_range.
  - in_range.
Defined.

End StreamExamples.
